(** * Earnings notifier: [earnings/fetchEarningsFromFinnhub.mjs]

    A shallow embedding of the script that polls the Finnhub earnings
    calendar, posts one Discord embed per newly reported event and keeps
    the list of already notified [(symbol, date)] pairs in a JSON file.

    The development follows the source:
    - [JS]: the fragment of JavaScript the script relies on -- nullish
      values, binary64 numbers, [Number.prototype.toFixed],
      [Array.prototype.sort] and the values of JSON;
    - the data model: calendar items, the state, embeds, the state file,
      and the machine the script runs on;
    - a state-and-exception monad in which [loadState], [saveState] and
      [main] are written statement by statement;
    - the loop and the run in closed form, and from there the properties
      of the pipeline: the gates, the delivery queue, the order of
      delivery, and what reaches the state file.

    Scope.  Calendar items are objects whose fields are absent, [null],
    or of the type the calendar documents (strings for [symbol], [date]
    and [hour], numbers elsewhere).  The state file may hold anything: it
    may be missing or unreadable, hold text that is not JSON, or hold any
    JSON value, an array of records or not.  The outside world -- the
    state file, the HTTP response, which sends are accepted, whether the
    write succeeds -- is an explicit input of a run; what the libraries
    decide -- which embeds the builder accepts, which URLs the webhook
    client accepts -- is a parameter of the script.  Strings are
    sequences of 8-bit characters: a character outside ASCII takes
    several of them, which shows only where a length is counted. *)

From Stdlib Require Import ZArith List String Ascii Bool Arith Lia.
From Stdlib Require Import Permutation Sorted.
From Stdlib Require Import Floats.SpecFloat DecimalString.
From Stdlib Require DecimalN Zpower.
Import ListNotations.

(* ================================================================= *)
(** * JavaScript values and built-ins *)

Module JS.

(** A property read yields [undefined] when the property is absent,
    [null] when it is present and null, or a value. *)
Inductive nullable (A : Type) : Type :=
| Undefined
| Null
| Val (a : A).
Arguments Undefined {A}.
Arguments Null {A}.
Arguments Val {A} a.

(** [x !== null] *)
Definition strict_not_null {A} (x : nullable A) : bool :=
  match x with Null => false | _ => true end.

(** [x != null] (loose: false for both [null] and [undefined]) *)
Definition loose_not_null {A} (x : nullable A) : bool :=
  match x with Val _ => true | _ => false end.

(** [x === y] on values of one primitive type with decidable equality. *)
Definition strict_eq {A} (eqb : A -> A -> bool) (x y : nullable A) : bool :=
  match x, y with
  | Undefined, Undefined => true
  | Null, Null => true
  | Val a, Val b => eqb a b
  | _, _ => false
  end.

(** [x ?? d] *)
Definition nullish {A} (x : nullable A) (d : A) : A :=
  match x with Val a => a | _ => d end.

(** [String(x)] and template interpolation of a string-or-nullish value. *)
Definition ToString_str (x : nullable string) : string :=
  match x with
  | Undefined => "undefined"
  | Null => "null"
  | Val s => s
  end.

(** ** Numbers: IEEE 754 binary64 *)

Definition number : Type := spec_float.
Definition prec : Z := 53.
Definition emax : Z := 1024.

(** The Number value of an integer literal (rounded to nearest even). *)
Definition num (z : Z) : number := binary_normalize prec emax z 0 false.

Definition div (x y : number) : number := SFdiv prec emax x y.
Definition sub (x y : number) : number := SFsub prec emax x y.
(** [x > y] and [x < y]; both are false when an operand is NaN. *)
Definition gt (x y : number) : bool := SFltb y x.
Definition lt (x y : number) : bool := SFltb x y.

(** ** [Number.prototype.toFixed] *)

(** Decimal digits of a natural number, ["0"] for zero. *)
Definition digits (n : Z) : string :=
  NilZero.string_of_uint (N.to_uint (Z.to_N n)).

Fixpoint zeros (k : nat) : string :=
  match k with
  | O => EmptyString
  | S k' => String "0" (zeros k')
  end.

(** The integer [n] for which [n / 10^f - m * 2^e] is closest to zero,
    the larger one when two are equally close. *)
Definition nearest_scaled (m : positive) (e : Z) (f : nat) : Z :=
  let scaled := (Z.pos m * 10 ^ Z.of_nat f)%Z in
  if (0 <=? e)%Z then (scaled * 2 ^ e)%Z
  else ((2 * scaled + 2 ^ (- e)) / 2 ^ (- e + 1))%Z.

(** Steps 10.b-10.c of [toFixed]: place the decimal point. *)
Definition place_point (n : Z) (f : nat) : string :=
  let m := digits n in
  match f with
  | O => m
  | _ =>
      let k := String.length m in
      let m' := if (k <=? f)%nat then zeros (f + 1 - k) ++ m else m in
      let k' := String.length m' in
      substring 0 (k' - f) m' ++ "." ++ substring (k' - f) f m'
  end%string.

(** [m * 2^e >= 10^21], decided on integers. *)
Definition at_least_1e21 (m : positive) (e : Z) : bool :=
  if (0 <=? e)%Z then (10 ^ 21 <=? Z.pos m * 2 ^ e)%Z
  else (10 ^ 21 * 2 ^ (- e) <=? Z.pos m)%Z.

Section ToFixed.
(** [Number::toString], used by [toFixed] for non-finite values and
    for magnitudes of at least 10^21. *)
Variable Number_toString : number -> string.

Definition toFixed (x : number) (f : nat) : string :=
  match x with
  | S754_zero _ => place_point 0 f
  | S754_finite s m e =>
      if at_least_1e21 m e then Number_toString x
      else ((if s then "-" else "") ++ place_point (nearest_scaled m e f) f)%string
  | _ => Number_toString x
  end.
End ToFixed.

(** ** [Array.prototype.sort] with a comparator

    The comparator result is a number; [None] stands for NaN, which
    [SortCompare] treats as [+0].  The sort is stable: an element ends up
    behind one that followed it only when the comparator says it is
    greater.

    When the comparator orders the elements consistently -- here: when
    every item carries a valid date -- the language fixes the result, and
    this is it ([Array_sort_unique] below).  When it does not, the order
    is left to the engine; the insertion below is then one possible
    outcome.  The properties that depend on the order of the loop assume
    valid dates; the others hold for any order. *)
Section Sort.
Context {A : Type}.
Variable comparefn : A -> A -> option Z.

Definition SortCompare (x y : A) : Z :=
  match comparefn x y with
  | Some v => v
  | None => 0%Z
  end.

Fixpoint insert (x : A) (l : list A) : list A :=
  match l with
  | [] => [x]
  | y :: l' =>
      if (SortCompare x y <=? 0)%Z then x :: y :: l'
      else y :: insert x l'
  end.

Fixpoint Array_sort (l : list A) : list A :=
  match l with
  | [] => []
  | x :: l' => insert x (Array_sort l')
  end.
End Sort.

(** ** JSON values

    What [JSON.parse] returns.  An object is the list of its properties,
    each name once; a property whose value is [undefined] counts as
    absent, which is all a property read or [JSON.stringify] can tell. *)
#[warnings="-register-all"] Inductive json : Type :=
| JNull
| JBoolean (b : bool)
| JNumber (n : number)
| JString (s : string)
| JArray (es : list json)
| JObject (ps : list (string * json)).

Fixpoint lookup (name : string) (ps : list (string * json)) : option json :=
  match ps with
  | [] => None
  | (k, v) :: ps' => if String.eqb k name then Some v else lookup name ps'
  end.

(** [v.name] for a value [v] other than [null], where [name] is one of
    the names the script reads: [symbol], [date] and [length].  No
    prototype defines any of them; arrays and strings have a [length] of
    their own.  [None] stands for [undefined]. *)
Definition prop (name : string) (v : json) : option json :=
  match v with
  | JObject ps => lookup name ps
  | JArray es =>
      if String.eqb name "length"
      then Some (JNumber (num (Z.of_nat (List.length es))))
      else None
  | JString s =>
      if String.eqb name "length"
      then Some (JNumber (num (Z.of_nat (String.length s))))
      else None
  | _ => None
  end.

(** The elements of an array; a value of another kind has none. *)
Definition elements (v : json) : list json :=
  match v with
  | JArray es => es
  | _ => []
  end.

(** [state.push(e1); ...; state.push(ek)] on an array.  Only arrays have
    [push]: another value is never pushed to, and stays as it is. *)
Definition push_all (v : json) (es : list json) : json :=
  match v with
  | JArray l => JArray (l ++ es)
  | _ => v
  end.

(** The value of a field of a calendar item, as a property value. *)
Definition field (x : nullable string) : option json :=
  match x with
  | Undefined => None
  | Null => Some JNull
  | Val s => Some (JString s)
  end.

(** [v === x] for a property value [v] and a field [x] of a calendar
    item: a string, [null] or [undefined].  Values of different types
    differ, and so do strings with different characters. *)
Definition same (v : option json) (x : nullable string) : bool :=
  match v, x with
  | None, Undefined => true
  | Some JNull, Null => true
  | Some (JString s), Val t => String.eqb s t
  | _, _ => false
  end.

(** The object literal [{ symbol: sym, date: d }]. *)
Definition record (sym d : nullable string) : json :=
  let property (k : string) (x : nullable string) :=
    match field x with
    | Some v => [(k, v)]
    | None => []
    end in
  JObject (property "symbol"%string sym ++ property "date"%string d).

End JS.

Import JS.

(* ================================================================= *)
(** * Data model *)

(** One entry of [data.earningsCalendar], as the script reads it. *)
Module Item.
Record t : Type := {
  symbol : nullable string;
  date : nullable string;
  hour : nullable string;
  quarter : nullable number;
  epsActual : nullable number;
  epsEstimate : nullable number;
  revenueActual : nullable number;
  revenueEstimate : nullable number
}.
End Item.

(** The value bound to [state]: whatever [loadState] returned, which is
    the array of [{ symbol, date }] records when the file is one the script
    wrote. *)
Definition State : Type := json.

(** The message handed to the webhook.  The timestamp that
    [setTimestamp()] adds is the wall-clock time of the call and is left
    out: nothing depends on it. *)
Record EmbedField : Type := {
  name : string;
  value : string;
  inline : bool
}.

Record Embed : Type := {
  color : Z;
  title : string;
  url : string;
  fields : list EmbedField;
  footer : string;
  author : string
}.

Record Payload : Type := {
  embeds : list Embed;
  allowed_mentions_parse : list string
}.

(** The text of the state file.  It is either not JSON at all, or JSON,
    and is then given by the value it denotes, whatever that value is.
    [JSON.stringify] followed by [JSON.parse] gives back the value
    serialised; the numbers of a state file, which the script never
    computes with, are taken to be finite and other than -0, the only
    values for which this fails. *)
Inductive document : Type :=
| Malformed (text : string)
| StateJson (v : json).

Inductive file : Type :=
| Missing
| Unreadable
| Holds (d : document).

(** What [axios.get] resolves to: the [data] of the response and, inside
    it, the [earningsCalendar] property. *)
Record Response : Type := {
  earningsCalendar : nullable (list Item.t)
}.

(** Thrown values. *)
Inductive exn : Type :=
| ENOENT
| EACCES
| SyntaxError
| TypeError
| NetworkError
| ValidationError
| DiscordError
| WriteError.

Inductive result (A : Type) : Type :=
| Ok (a : A)
| Throw (e : exn).
Arguments Ok {A} a.
Arguments Throw {A} e.

(** Lines written to the console. *)
Inductive LogLine : Type :=
| SavingState
| StateSaved
| Sent (symbol date : nullable string)
| TotalRecords (length : option json)
| ErrorSendingMessages (error : exn)
| Fatal (error : exn).

(** Calls that leave the process, in the order they are made.
    [WebhookSend] also records the calendar item that caused the call. *)
Inductive Effect : Type :=
| FsReadFile
| HttpGet
| WebhookSend (item : Item.t) (p : Payload) (ok : bool)
| Sleep (ms : Z)
| FsWriteFile (d : document) (ok : bool)
| Console (line : LogLine)
| WebhookDestroy.

(** What the outside world answers during one run. *)
Record World : Type := {
  (** the HTTP GET: the response data, or a thrown error *)
  axios_get : result (nullable Response);
  (** whether the [n]-th call of [webhook.send] (from 0) resolves *)
  webhook_send : nat -> Payload -> bool;
  (** [None]: [fs.writeFile] succeeds; [Some f]: it throws and leaves [f] *)
  fs_writeFile : option file
}.

(** The machine the script runs on. *)
Record Machine : Type := {
  disk : file;            (** [STATE_FILE] *)
  state : State;          (** the value bound to [state] in [main] *)
  sent : nat;             (** calls of [webhook.send] made so far *)
  trace : list Effect     (** effects so far, oldest first *)
}.

(* ================================================================= *)
(** * A monad for the script: machine state and exceptions *)

Definition M (A : Type) : Type := Machine -> result A * Machine.

Definition ret {A} (a : A) : M A := fun m => (Ok a, m).

Definition bind {A B} (c : M A) (k : A -> M B) : M B :=
  fun m =>
    match c m with
    | (Ok a, m') => k a m'
    | (Throw e, m') => (Throw e, m')
    end.

Definition throw {A} (e : exn) : M A := fun m => (Throw e, m).

(** [try { body } catch (e) { handler e }] *)
Definition try_catch {A} (body : M A) (handler : exn -> M A) : M A :=
  fun m =>
    match body m with
    | (Ok a, m') => (Ok a, m')
    | (Throw e, m') => handler e m'
    end.

(** [try { body } finally { finalizer }]: the finalizer always runs; what
    it throws replaces the outcome of the body. *)
Definition try_finally {A} (body : M A) (finalizer : M unit) : M A :=
  fun m =>
    let (r, m') := body m in
    match finalizer m' with
    | (Ok _, m'') => (r, m'')
    | (Throw e, m'') => (Throw e, m'')
    end.

Notation "x <- c ;; k" := (bind c (fun x => k))
  (at level 61, c at next level, right associativity).
Notation "c ;; k" := (bind c (fun _ => k))
  (at level 61, right associativity).

(** [for (const x of l) body], where [continue] is an early [ret tt]. *)
Fixpoint for_of {A} (l : list A) (body : A -> M unit) : M unit :=
  match l with
  | [] => ret tt
  | x :: l' => body x ;; for_of l' body
  end.

Definition continue : M unit := ret tt.

Definition emit (e : Effect) : M unit :=
  fun m =>
    (Ok tt, {| disk := disk m; state := state m; sent := sent m;
               trace := trace m ++ [e] |}).

Definition console (line : LogLine) : M unit := emit (Console line).

(** ** Reading values *)

(** [v.name]: reading a property of [null] throws. *)
Definition get (name : string) (v : json) : result (option json) :=
  match v with
  | JNull => Throw TypeError
  | _ => Ok (prop name v)
  end.

(** [Array.prototype.some]: the callback is called on the elements in
    order until it returns true; what it throws is thrown on. *)
Fixpoint Array_some {A : Type} (p : A -> result bool) (l : list A)
  : result bool :=
  match l with
  | [] => Ok false
  | x :: l' =>
      match p x with
      | Ok true => Ok true
      | Ok false => Array_some p l'
      | Throw e => Throw e
      end
  end.

(** [v.some(p)]: only an array has the method; on [null] the property
    read throws, on any other value the call of [undefined] does. *)
Definition some (p : json -> result bool) (v : json) : result bool :=
  match v with
  | JArray es => Array_some p es
  | _ => Throw TypeError
  end.

(** An array without [null] in it: on such a value [some] with the
    callback of the script does not throw. *)
Definition intact (v : json) : bool :=
  match v with
  | JArray es =>
      forallb (fun e => match e with JNull => false | _ => true end) es
  | _ => false
  end.

(** ** The value bound to [state] *)

Definition bind_state (s : State) : M unit :=
  fun m =>
    (Ok tt, {| disk := disk m; state := s; sent := sent m;
               trace := trace m |}).

Definition read_state : M State := fun m => (Ok (state m), m).

(** [state.some(p)] *)
Definition state_some (p : json -> result bool) : M bool :=
  fun m => (some p (state m), m).

(** [state.push(e)] *)
Definition state_push (e : json) : M unit :=
  fun m =>
    match state m with
    | JArray l =>
        (Ok tt, {| disk := disk m; state := JArray (l ++ [e]);
                   sent := sent m; trace := trace m |})
    | _ => (Throw TypeError, m)
    end.

(** [state.length] *)
Definition state_length : M (option json) :=
  fun m => (get "length" (state m), m).

(** ** The file system and JSON *)

Definition fs_readFile : M document :=
  emit FsReadFile ;;
  fun m =>
    match disk m with
    | Missing => (Throw ENOENT, m)
    | Unreadable => (Throw EACCES, m)
    | Holds d => (Ok d, m)
    end.

Definition JSON_parse (d : document) : M State :=
  match d with
  | Malformed _ => throw SyntaxError
  | StateJson s => ret s
  end.

Definition JSON_stringify (s : State) : document := StateJson s.

(* ================================================================= *)
(** * Reading a trace *)

(** The calls of [webhook.send]: the item and whether the call resolved. *)
Fixpoint attempts (tr : list Effect) : list (Item.t * bool) :=
  match tr with
  | [] => []
  | WebhookSend item _ ok :: tr' => (item, ok) :: attempts tr'
  | _ :: tr' => attempts tr'
  end.

(** The payloads handed to [webhook.send]. *)
Fixpoint payloads (tr : list Effect) : list Payload :=
  match tr with
  | [] => []
  | WebhookSend _ p _ :: tr' => p :: payloads tr'
  | _ :: tr' => payloads tr'
  end.

(** The calls of [fs.writeFile], one per call of [saveState]: the document
    written and whether the write succeeded. *)
Fixpoint writes (tr : list Effect) : list (document * bool) :=
  match tr with
  | [] => []
  | FsWriteFile d ok :: tr' => (d, ok) :: writes tr'
  | _ :: tr' => writes tr'
  end.

(** The calls of [saveState], counted by the line it first logs. *)
Fixpoint saveState_calls (tr : list Effect) : nat :=
  match tr with
  | [] => 0
  | Console SavingState :: tr' => S (saveState_calls tr')
  | _ :: tr' => saveState_calls tr'
  end.

(** The errors that the [catch] block of [main] logs. *)
Fixpoint errors (tr : list Effect) : list exn :=
  match tr with
  | [] => []
  | Console (ErrorSendingMessages e) :: tr' => e :: errors tr'
  | _ :: tr' => errors tr'
  end.

(** The pauses, in milliseconds. *)
Fixpoint sleeps (tr : list Effect) : list Z :=
  match tr with
  | [] => []
  | Sleep ms :: tr' => ms :: sleeps tr'
  | _ :: tr' => sleeps tr'
  end.

(** The reads of the state file and the HTTP requests. *)
Fixpoint reads (tr : list Effect) : nat :=
  match tr with
  | [] => 0
  | FsReadFile :: tr' => S (reads tr')
  | _ :: tr' => reads tr'
  end.

Fixpoint requests (tr : list Effect) : nat :=
  match tr with
  | [] => 0
  | HttpGet :: tr' => S (requests tr')
  | _ :: tr' => requests tr'
  end.

(** The records that the lines [✔ Sent: symbol (date)] announce. *)
Fixpoint sent_log (tr : list Effect) : list json :=
  match tr with
  | [] => []
  | Console (Sent sym d) :: tr' => record sym d :: sent_log tr'
  | _ :: tr' => sent_log tr'
  end.

(** A list obtained from another one by dropping elements. *)
Inductive subseq {A : Type} : list A -> list A -> Prop :=
| subseq_nil : subseq [] []
| subseq_skip : forall x l1 l2, subseq l1 l2 -> subseq l1 (x :: l2)
| subseq_keep : forall x l1 l2, subseq l1 l2 -> subseq (x :: l1) (x :: l2).

(* ================================================================= *)
(** * Instances of the built-ins and of the libraries, for running the
      script on examples *)

Module Builtins.

Definition digit (c : ascii) : option Z :=
  let n := nat_of_ascii c in
  if ((48 <=? n) && (n <=? 57))%nat then Some (Z.of_nat (n - 48)) else None.

(** Days from 1970-01-01 to the civil date [y]-[m]-[d]. *)
Definition days_from_civil (y m d : Z) : Z :=
  let y' := (if m <=? 2 then y - 1 else y)%Z in
  let era := (y' / 400)%Z in
  let yoe := (y' - era * 400)%Z in
  let mp := (if 2 <? m then m - 3 else m + 9)%Z in
  let doy := ((153 * mp + 2) / 5 + d - 1)%Z in
  let doe := (yoe * 365 + yoe / 4 - yoe / 100 + doy)%Z in
  (era * 146097 + doe - 719468)%Z.

Definition msPerDay : Z := 86400000.

(** [Date.parse] on the date-only form [YYYY-MM-DD] of the ECMAScript
    date-time string format, which is read as UTC midnight.  A day up to
    31 is taken in any month and counted on into the next one, as Node
    does.  This is the form the calendar uses; an engine accepts further
    formats, which this instance leaves invalid. *)
Definition Date_parse_iso (s : string) : option Z :=
  match list_ascii_of_string s with
  | [y1; y2; y3; y4; "-"%char; m1; m2; "-"%char; d1; d2] =>
      match digit y1, digit y2, digit y3, digit y4,
            digit m1, digit m2, digit d1, digit d2 with
      | Some a, Some b, Some c, Some d, Some e, Some f, Some g, Some h =>
          let y := (a * 1000 + b * 100 + c * 10 + d)%Z in
          let m := (e * 10 + f)%Z in
          let dd := (g * 10 + h)%Z in
          if ((1 <=? m) && (m <=? 12) && (1 <=? dd) && (dd <=? 31))%Z
          then Some (days_from_civil y m dd * msPerDay)%Z
          else None
      | _, _, _, _, _, _, _, _ => None
      end
  | _ => None
  end.

(** [Number::toString] on the numbers the examples print: NaN, the
    infinities, zero and integral values below 10^21.  A value with a
    fractional part needs the shortest round-trip digit search, which no
    example reaches; the last branch stands for it. *)
Definition Number_toString_integral (x : number) : string :=
  match x with
  | S754_nan => "NaN"
  | S754_infinity s => if s then "-Infinity" else "Infinity"
  | S754_zero _ => "0"
  | S754_finite s m e =>
      let sign := (if s then "-" else "")%string in
      if at_least_1e21 m e then ""
      else if (0 <=? e)%Z then sign ++ digits (Z.pos m * 2 ^ e)
      else if (Z.pos m mod 2 ^ (- e) =? 0)%Z
           then sign ++ digits (Z.pos m / 2 ^ (- e))
           else ""
  end%string.

(** The limits that the embed builder of discord.js checks: 1 to 256
    characters for the title, the author and the name of a field, 1 to
    1024 for the value of a field, 1 to 2048 for the footer, and at most 25
    fields.  The library counts UTF-16 code units; the glyph at the head
    of a title takes two of them and four bytes here, so for symbols in
    ASCII the title may be 258 bytes long. *)
Definition within (lo hi : nat) (s : string) : bool :=
  ((lo <=? String.length s) && (String.length s <=? hi))%nat.

Definition EmbedBuilder_limits (e : Embed) : bool :=
  within 1 258 (title e)
  && within 1 256 (author e)
  && within 1 2048 (footer e)
  && (List.length (fields e) <=? 25)%nat
  && forallb (fun fld => within 1 256 (name fld) && within 1 1024 (value fld))
             (fields e).

(** The longest prefix of [l] whose characters satisfy [p], and the
    rest. *)
Fixpoint span (p : ascii -> bool) (l : list ascii) : list ascii * list ascii :=
  match l with
  | [] => ([], [])
  | c :: l' =>
      if p c then let (a, b) := span p l' in (c :: a, b) else ([], l)
  end.

Definition is_digit (c : ascii) : bool :=
  match digit c with Some _ => true | None => false end.

(** A character of a webhook token: a letter, a digit, [_] or [-]. *)
Definition is_word (c : ascii) : bool :=
  let n := nat_of_ascii c in
  (is_digit c || ((65 <=? n) && (n <=? 90)) || ((97 <=? n) && (n <=? 122))
   || (n =? 95) || (n =? 45))%nat.

(** The URLs that the webhook client of discord.js takes, in their usual
    form: the address of the API, an id of 17 to 19 digits and a token of
    68 characters. *)
Definition WebhookClient_url (url : string) : bool :=
  let head := "https://discord.com/api/webhooks/"%string in
  prefix head url
  && let rest := list_ascii_of_string
                   (substring (String.length head)
                              (String.length url - String.length head) url) in
     let (id, rest') := span is_digit rest in
     ((17 <=? List.length id) && (List.length id <=? 19))%nat
     && match rest' with
        | "/"%char :: token =>
            (68 <=? List.length (fst (span is_word token)))%nat
        | _ => false
        end.

End Builtins.

(* ================================================================= *)
(** * Sample inputs *)

Module Sample.

(** A reported calendar entry: revenue is known, EPS is not. *)
Definition reported (sym d : string) (revenue : Z) : Item.t :=
  {| Item.symbol := Val sym; Item.date := Val d;
     Item.hour := Val "amc"%string; Item.quarter := Val (num 2);
     Item.epsActual := Null; Item.epsEstimate := Null;
     Item.revenueActual := Val (num revenue);
     Item.revenueEstimate := Undefined |}.

(** An entry that only carries estimates. *)
Definition estimate_only (sym d : string) : Item.t :=
  {| Item.symbol := Val sym; Item.date := Val d;
     Item.hour := Val "bmo"%string; Item.quarter := Val (num 2);
     Item.epsActual := Null; Item.epsEstimate := Val (num 1);
     Item.revenueActual := Null;
     Item.revenueEstimate := Val (num 1000000000) |}.


(** A reported entry that lacks its symbol. *)
Definition no_symbol (d : string) (revenue : Z) : Item.t :=
  {| Item.symbol := Undefined; Item.date := Val d;
     Item.hour := Val "amc"%string; Item.quarter := Val (num 2);
     Item.epsActual := Null; Item.epsEstimate := Null;
     Item.revenueActual := Val (num revenue);
     Item.revenueEstimate := Undefined |}.

Definition AAA : Item.t := reported "AAA" "2024-05-01" 2345000000.
Definition BBB : Item.t := reported "BBB" "2024-05-02" 1200000000.
Definition CCC : Item.t := reported "CCC" "2024-05-03" 530000000.
Definition EEE : Item.t := estimate_only "EEE" "2024-05-02".
Definition anonymous : Item.t := no_symbol "2024-05-01" 1000000000.


(** A reported entry whose symbol has 300 characters: its title is longer
    than an embed allows. *)
Definition LONG : Item.t :=
  reported (string_of_list_ascii (repeat "X"%char 300)) "2024-05-01"
           1000000000.

Definition entry (sym d : string) : json := record (Val sym) (Val d).

(** A state file left by an earlier run. *)
Definition earlier : file :=
  Holds (StateJson (JArray [entry "ZZZ" "2024-04-30"])).




Definition responds (items : list Item.t) : result (nullable Response) :=
  Ok (Val {| earningsCalendar := Val items |}).

(** Every send resolves. *)
Definition calm (items : list Item.t) : World :=
  {| axios_get := responds items;
     webhook_send := fun _ _ => true;
     fs_writeFile := None |}.


(** The fetch times out. *)
Definition offline : World :=
  {| axios_get := Throw NetworkError;
     webhook_send := fun _ _ => true;
     fs_writeFile := None |}.

End Sample.

(* ================================================================= *)
(** * The script *)

Definition SLEEP_BETWEEN_SENDS : Z := 3000.

Section Earnings.

(** Built-ins of the language that the script calls and whose results no
    property below depends on: [Number::toString], and [Date.parse]
    giving the time value of a date string ([None] for an invalid date,
    whose time value is NaN). *)
Variable Number_toString : number -> string.
Variable Date_parse : string -> option Z.

(** Whether the embed builder of discord.js accepts the values it is
    given; it throws otherwise.  The builder checks each value as it is
    set, and the chain of calls has no other effect. *)
Variable EmbedBuilder_accepts : Embed -> bool.

(** ** Sorting key *)

(** The time value of [new Date(d)]. *)
Definition dateValue (d : nullable string) : option Z :=
  match d with
  | Undefined => None
  | Null => Some 0%Z
  | Val s => Date_parse s
  end.

(** [(a, b) => new Date(a.date) - new Date(b.date)].  Time values are
    integers below 2^53 in magnitude, so the sign of the binary64
    difference is the sign of the exact one. *)
Definition compareDates (a b : Item.t) : option Z :=
  match dateValue (Item.date a), dateValue (Item.date b) with
  | Some ta, Some tb => Some (ta - tb)%Z
  | _, _ => None
  end.

(** ** Per-item computations of the loop body *)

Definition isReported (item : Item.t) : bool :=
  strict_not_null (Item.epsActual item)
  || strict_not_null (Item.revenueActual item).

(** The callback of [state.some]:
    [(e) => e.symbol === item.symbol && e.date === item.date]. *)
Definition matches (item : Item.t) (e : json) : result bool :=
  match get "symbol" e with
  | Throw x => Throw x
  | Ok sym =>
      if same sym (Item.symbol item) then
        match get "date" e with
        | Throw x => Throw x
        | Ok d => Ok (same d (Item.date item))
        end
      else Ok false
  end.

Definition surprise (item : Item.t) : nullable number :=
  match Item.epsActual item, Item.epsEstimate item with
  | Val a, Val e => Val (sub a e)
  | _, _ => Null
  end.

Definition statusEmoji (item : Item.t) : string :=
  match surprise item with
  | Val s =>
      if gt s (num 0) then "🟢"
      else if lt s (num 0) then "🔴"
      else "🔵"
  | _ => "🔵"
  end%string.

Definition toBillions (n : nullable number) : string :=
  match n with
  | Val x => "$" ++ toFixed Number_toString (div x (num 1000000000)) 2 ++ "B"
  | _ => "N/A"
  end%string.

Definition reportHour (h : nullable string) : string :=
  (if strict_eq String.eqb h (Val "bmo") then "Before Market Open"
  else if strict_eq String.eqb h (Val "amc") then "After Market Close"
  else if strict_eq String.eqb h (Val "dmh") then "During Market Hours"
  else "Unknown")%string.

(** [String(x ?? "N/A")] for a numeric field. *)
Definition String_or_NA (x : nullable number) : string :=
  match x with
  | Val v => Number_toString v
  | _ => "N/A"%string
  end.

Definition newline : string := String (ascii_of_nat 10) EmptyString.

Definition buildEmbed (item : Item.t) : Embed :=
  let sym := ToString_str (Item.symbol item) in
  ({| color := 255;
     title := statusEmoji item ++ " " ++ sym;
     url := "https://finance.yahoo.com/quote/" ++ sym;
     fields :=
       [ {| name := "Earnings Date";
            value := ToString_str (Item.date item); inline := true |};
         {| name := "Report Hour";
            value := reportHour (Item.hour item); inline := true |};
         {| name := "Quarter";
            value := String_or_NA (Item.quarter item); inline := true |};
         {| name := "EPS";
            value := String_or_NA (Item.epsActual item); inline := true |};
         {| name := "EPS Estimate";
            value := String_or_NA (Item.epsEstimate item); inline := true |};
         {| name := "Revenue";
            value := toBillions (Item.revenueActual item); inline := true |};
         {| name := "Revenue Estimate";
            value := toBillions (Item.revenueEstimate item); inline := true |} ];
     footer :=
       "Earnings Hub: https://earningshub.com/quote/" ++ sym ++ newline
       ++ "Earnings Whispers: https://www.earningswhispers.com/epsdetails/"
       ++ sym ++ newline
       ++ "Yahoo Finance: https://finance.yahoo.com/quote/" ++ sym;
     author := "Source: Finnhub" |})%string.

Definition buildPayload (item : Item.t) : Payload :=
  {| embeds := [buildEmbed item]; allowed_mentions_parse := [] |}.

(** The record pushed after a send: [{ symbol: item.symbol, date: item.date }]. *)
Definition entryOf (item : Item.t) : json :=
  record (Item.symbol item) (Item.date item).

(** [new EmbedBuilder().setColor(...) ... .setTimestamp()] *)
Definition EmbedBuilder_build (item : Item.t) : M Embed :=
  let embed := buildEmbed item in
  if EmbedBuilder_accepts embed then ret embed else throw ValidationError.

(** ** [loadState] and [saveState] *)

Definition loadState : M State :=
  try_catch
    (text <- fs_readFile ;; JSON_parse text)
    (fun _ => ret (JArray [])).

Section Run.
Variable w : World.

Definition fs_writeFile_call (d : document) : M unit :=
  fun m =>
    match fs_writeFile w with
    | None =>
        (Ok tt, {| disk := Holds d; state := state m; sent := sent m;
                   trace := trace m ++ [FsWriteFile d true] |})
    | Some f =>
        (Throw WriteError,
         {| disk := f; state := state m; sent := sent m;
            trace := trace m ++ [FsWriteFile d false] |})
    end.

Definition saveState (s : State) : M unit :=
  console SavingState ;;
  fs_writeFile_call (JSON_stringify s) ;;
  console StateSaved.

(** [axios.get(url, { timeout: 30000 })].  The URL -- the trailing seven
    days and the token -- matters to the server only; a timeout or a
    non-2xx status makes the call throw. *)
Definition axios_get_call : M (nullable Response) :=
  emit HttpGet ;;
  fun m => (axios_get w, m).

Definition webhook_send_call (item : Item.t) (p : Payload) : M unit :=
  fun m =>
    let ok := webhook_send w (sent m) p in
    let m' := {| disk := disk m; state := state m; sent := S (sent m);
                 trace := trace m ++ [WebhookSend item p ok] |} in
    if ok then (Ok tt, m') else (Throw DiscordError, m').

(** ** [main] *)

(** The body of [for (const item of earnings)]. *)
Definition loop_body (item : Item.t) : M unit :=
  if negb (isReported item) then continue else
  exists_ <- state_some (matches item) ;;
  if exists_ : bool then continue else
  embed <- EmbedBuilder_build item ;;
  let payload := {| embeds := [embed]; allowed_mentions_parse := [] |} in
  webhook_send_call item payload ;;
  state_push (entryOf item) ;;
  console (Sent (Item.symbol item) (Item.date item)) ;;
  emit (Sleep SLEEP_BETWEEN_SENDS).

(** [data.earningsCalendar || []]; reading a property of a nullish
    [data] throws. *)
Definition unsorted_earnings (data : nullable Response) : M (list Item.t) :=
  match data with
  | Val d => ret (nullish (earningsCalendar d) [])
  | _ => throw TypeError
  end.

Definition main : M unit :=
  loaded <- loadState ;;
  bind_state loaded ;;
  try_finally
    (try_catch
       (data <- axios_get_call ;;
        unsorted <- unsorted_earnings data ;;
        let earnings := Array_sort compareDates unsorted in
        for_of earnings loop_body)
       (fun error => console (ErrorSendingMessages error)))
    (s <- read_state ;;
     saveState s ;;
     n <- state_length ;;
     console (TotalRecords n) ;;
     emit WebhookDestroy).

(** The machine before anything has run, with the state file [f]. *)
Definition boot (f : file) : Machine :=
  {| disk := f; state := JArray []; sent := 0; trace := [] |}.

Definition run (f : file) : result unit * Machine := main (boot f).

(** ** Reading a run *)

(** The state [loadState] yields for a given state file. *)
Definition loaded (f : file) : State :=
  match f with
  | Holds (StateJson v) => v
  | _ => JArray []
  end.

(** The upstream batch, when the fetch delivers one. *)
Definition batch : option (list Item.t) :=
  match axios_get w with
  | Ok (Val d) => Some (nullish (earningsCalendar d) [])
  | _ => None
  end.

(** [state.some(...)] for the item, when [state] is [s]. *)
Definition recorded (s : State) (item : Item.t) : result bool :=
  some (matches item) s.

(** Whether the builder accepts the embed of the item. *)
Definition accepted (item : Item.t) : bool :=
  EmbedBuilder_accepts (buildEmbed item).

(** The delivery queue: the items, in loop order, that pass both gates
    when every earlier send has succeeded (and so has been recorded).  It
    ends where [state.some] throws. *)
Fixpoint queue (s : State) (items : list Item.t) : list Item.t :=
  match items with
  | [] => []
  | item :: rest =>
      if isReported item then
        match recorded s item with
        | Ok false => item :: queue (push_all s [entryOf item]) rest
        | Ok true => queue s rest
        | Throw _ => []
        end
      else queue s rest
  end.

(** Whether [state.some] throws before the end of the items, under the
    same proviso. *)
Fixpoint faulty (s : State) (items : list Item.t) : bool :=
  match items with
  | [] => false
  | item :: rest =>
      if isReported item then
        match recorded s item with
        | Ok false => faulty (push_all s [entryOf item]) rest
        | Ok true => faulty s rest
        | Throw _ => true
        end
      else faulty s rest
  end.

(** Walking the queue from call number [n]: every item is attempted
    until the builder refuses one or a send fails. *)
Fixpoint deliver (n : nat) (q : list Item.t) : list (Item.t * bool) :=
  match q with
  | [] => []
  | item :: q' =>
      if accepted item then
        if webhook_send w n (buildPayload item)
        then (item, true) :: deliver (S n) q'
        else [(item, false)]
      else []
  end.

(** What stops the walk before the end of the queue, if anything. *)
Fixpoint stopped (n : nat) (q : list Item.t) : option exn :=
  match q with
  | [] => None
  | item :: q' =>
      if accepted item then
        if webhook_send w n (buildPayload item)
        then stopped (S n) q'
        else Some DiscordError
      else Some ValidationError
  end.

(** The items whose send succeeded. *)
Definition delivered (att : list (Item.t * bool)) : list Item.t :=
  map fst (filter snd att).

Definition all_ok (att : list (Item.t * bool)) : bool :=
  forallb snd att.

(** What one attempt leaves in the trace. *)
Definition attempt_trace (a : Item.t * bool) : list Effect :=
  let (item, ok) := a in
  if ok then
    [ WebhookSend item (buildPayload item) true;
      Console (Sent (Item.symbol item) (Item.date item));
      Sleep SLEEP_BETWEEN_SENDS ]
  else [ WebhookSend item (buildPayload item) false ].

(* ================================================================= *)
(** * Records and keys *)

(** The (symbol, date) pair of an element of the state array, as the
    callback of [state.some] reads it, and the pair of an item. *)
Definition key (e : json) : option json * option json :=
  (prop "symbol" e, prop "date" e).

Definition key_of (item : Item.t) : option json * option json :=
  (field (Item.symbol item), field (Item.date item)).

(** Two items with the same (symbol, date). *)
Definition same_key (a b : Item.t) : bool :=
  strict_eq String.eqb (Item.symbol a) (Item.symbol b)
  && strict_eq String.eqb (Item.date a) (Item.date b).

Lemma strict_eq_string (x y : nullable string) :
  strict_eq String.eqb x y = true <-> x = y.
Proof.
  destruct x as [| | a], y as [| | b]; simpl;
    try (split; [discriminate | discriminate]);
    try (split; reflexivity).
  rewrite String.eqb_eq. split; [now intros -> | now intros [= ->]].
Qed.

Lemma same_field (v : option json) (x : nullable string) :
  same v x = true <-> v = field x.
Proof.
  destruct v as [[| b | n | s | es | ps] |], x as [| | t]; simpl;
    try (split; [discriminate | discriminate]);
    try (split; reflexivity).
  rewrite String.eqb_eq. split; [now intros -> | now intros [= ->]].
Qed.

Lemma field_inj (x y : nullable string) : field x = field y -> x = y.
Proof.
  destruct x, y; simpl; intros H; try discriminate; try reflexivity.
  now injection H as ->.
Qed.

Lemma key_record (sym d : nullable string) :
  key (record sym d) = (field sym, field d).
Proof. destruct sym, d; reflexivity. Qed.

Lemma record_inj (s1 d1 s2 d2 : nullable string) :
  record s1 d1 = record s2 d2 -> s1 = s2 /\ d1 = d2.
Proof.
  intros H. apply (f_equal key) in H. rewrite !key_record in H.
  injection H as Hs Hd. split; now apply field_inj.
Qed.

Lemma key_entryOf (item : Item.t) : key (entryOf item) = key_of item.
Proof. apply key_record. Qed.

Lemma entryOf_key (a b : Item.t) :
  entryOf a = entryOf b <-> key_of a = key_of b.
Proof.
  split.
  - intros H. now rewrite <- !key_entryOf, H.
  - unfold key_of, entryOf. intros [= Hs Hd].
    apply field_inj in Hs, Hd. now rewrite Hs, Hd.
Qed.

Lemma same_key_eq (a b : Item.t) :
  same_key a b = true <-> entryOf a = entryOf b.
Proof.
  unfold same_key. rewrite andb_true_iff, !strict_eq_string. split.
  - intros [Hs Hd]. unfold entryOf. now rewrite Hs, Hd.
  - intros H. now apply record_inj in H.
Qed.

Lemma same_key_refl (a : Item.t) : same_key a a = true.
Proof. now apply same_key_eq. Qed.

Lemma entryOf_not_null (item : Item.t) : entryOf item <> JNull.
Proof. discriminate. Qed.

(** The callback of [state.some] throws on [null] and nowhere else;
    otherwise it compares the two pairs. *)
Lemma matches_null (item : Item.t) : matches item JNull = Throw TypeError.
Proof. reflexivity. Qed.

Lemma matches_eq (item : Item.t) (e : json) :
  e <> JNull ->
  matches item e
  = Ok (same (prop "symbol" e) (Item.symbol item)
        && same (prop "date" e) (Item.date item)).
Proof.
  intros Hnn. unfold matches, get.
  destruct e; try contradiction;
    destruct (same _ (Item.symbol item)); reflexivity.
Qed.

Lemma matches_true (item : Item.t) (e : json) :
  matches item e = Ok true <-> e <> JNull /\ key e = key_of item.
Proof.
  split.
  - intros H.
    assert (Hnn : e <> JNull) by (intros ->; discriminate H).
    split; [exact Hnn |].
    rewrite (matches_eq item e Hnn) in H. injection H as H.
    apply andb_true_iff in H. destruct H as [Hs Hd].
    apply same_field in Hs, Hd. unfold key, key_of. now rewrite Hs, Hd.
  - intros [Hnn Hk]. rewrite (matches_eq item e Hnn).
    unfold key, key_of in Hk. injection Hk as Hs Hd.
    apply same_field in Hs, Hd. now rewrite Hs, Hd.
Qed.

Lemma matches_false (item : Item.t) (e : json) :
  matches item e = Ok false <-> e <> JNull /\ key e <> key_of item.
Proof.
  destruct (matches item e) as [[|] | x] eqn:Hm.
  - apply matches_true in Hm. destruct Hm as [_ Hk].
    split; [discriminate | intros [_ H]; contradiction].
  - split; [intros _ | reflexivity].
    assert (Hnn : e <> JNull) by (intros ->; discriminate Hm).
    split; [exact Hnn |]. intros Hk.
    assert (Ht : matches item e = Ok true) by now apply matches_true.
    congruence.
  - split; [discriminate |]. intros [Hnn _]. exfalso.
    unfold matches, get in Hm.
    destruct e; try contradiction;
      destruct (same _ (Item.symbol item)); discriminate.
Qed.

Lemma matches_throw (item : Item.t) (e : json) (x : exn) :
  matches item e = Throw x -> e = JNull /\ x = TypeError.
Proof.
  unfold matches, get.
  destruct e; try (destruct (same _ (Item.symbol item)); discriminate).
  now intros [= <-].
Qed.

Lemma matches_entryOf (item j : Item.t) :
  matches item (entryOf j) = Ok (same_key j item).
Proof.
  destruct (same_key j item) eqn:Hk.
  - apply matches_true. split; [discriminate |].
    rewrite key_entryOf. now apply entryOf_key, same_key_eq.
  - apply matches_false. split; [discriminate |].
    rewrite key_entryOf. intros H. apply entryOf_key, same_key_eq in H.
    congruence.
Qed.

(** ** [state.some] *)

Lemma Array_some_app {A : Type} (p : A -> result bool) (l1 l2 : list A) :
  Array_some p (l1 ++ l2)
  = match Array_some p l1 with
    | Ok false => Array_some p l2
    | r => r
    end.
Proof.
  induction l1 as [| x l1 IH]; simpl; [reflexivity |].
  destruct (p x) as [[|] | e]; [reflexivity | exact IH | reflexivity].
Qed.

Lemma Array_some_entries (item : Item.t) (js : list Item.t) :
  Array_some (matches item) (map entryOf js)
  = Ok (existsb (fun j => same_key j item) js).
Proof.
  induction js as [| j js IH]; simpl; [reflexivity |].
  rewrite matches_entryOf. destruct (same_key j item); [reflexivity | exact IH].
Qed.

Lemma recorded_throw (s : State) (item : Item.t) (e : exn) :
  recorded s item = Throw e -> e = TypeError.
Proof.
  unfold recorded, some. destruct s as [| b | n | t | es | ps];
    try (now intros [= <-]).
  induction es as [| x es IH]; simpl; [discriminate |].
  destruct (matches item x) as [[|] | y] eqn:Hm; [discriminate | exact IH |].
  intros [= <-]. now apply matches_throw in Hm.
Qed.

(** A lookup that returns has found an array. *)
Lemma recorded_array (s : State) (item : Item.t) (b : bool) :
  recorded s item = Ok b -> s = JArray (elements s).
Proof.
  unfold recorded, some. destruct s; try discriminate. reflexivity.
Qed.

(** Records pushed onto the state are found by the items that have
    their key, and change nothing for the others. *)
Lemma recorded_push_all (s : State) (item : Item.t) (js : list Item.t) :
  recorded (push_all s (map entryOf js)) item
  = match recorded s item with
    | Ok false => Ok (existsb (fun j => same_key j item) js)
    | r => r
    end.
Proof.
  unfold recorded, some, push_all.
  destruct s as [| b | n | t | es | ps]; try reflexivity.
  now rewrite Array_some_app, Array_some_entries.
Qed.

Lemma recorded_false (s : State) (item : Item.t) :
  recorded s item = Ok false
  <-> s = JArray (elements s)
      /\ Forall (fun e => matches item e = Ok false) (elements s).
Proof.
  unfold recorded, some. destruct s as [| b | n | t | es | ps]; simpl;
    try (split; [discriminate | intros [H _]; discriminate H]).
  split.
  - intros H. split; [reflexivity |].
    induction es as [| x es IH]; simpl in *; [constructor |].
    destruct (matches item x) as [[|] | y] eqn:Hm; try discriminate.
    constructor; [exact Hm | now apply IH].
  - intros [_ H]. induction H as [| x es Hx H IH]; simpl; [reflexivity |].
    now rewrite Hx.
Qed.

(** An item that [state.some] does not find has neither its record nor
    its key in the array. *)
Lemma recorded_false_not_In (s : State) (item : Item.t) :
  recorded s item = Ok false ->
  ~ In (entryOf item) (elements s)
  /\ ~ In (key_of item) (map key (elements s)).
Proof.
  intros H. apply recorded_false in H. destruct H as [_ H].
  rewrite Forall_forall in H. split.
  - intros Hin. specialize (H _ Hin). rewrite matches_entryOf in H.
    now rewrite same_key_refl in H.
  - intros Hin. apply in_map_iff in Hin. destruct Hin as (e & Hk & Hin).
    specialize (H _ Hin). apply matches_false in H. tauto.
Qed.

Lemma push_all_nil (s : State) : push_all s [] = s.
Proof. destruct s; simpl; try reflexivity. now rewrite app_nil_r. Qed.

Lemma push_all_app (s : State) (l1 l2 : list json) :
  push_all (push_all s l1) l2 = push_all s (l1 ++ l2).
Proof. destruct s; simpl; try reflexivity. now rewrite app_assoc. Qed.

Lemma elements_push_all (s : State) (es : list json) :
  s = JArray (elements s) ->
  elements (push_all s es) = elements s ++ es.
Proof. intros ->. reflexivity. Qed.

(* ================================================================= *)
(** * The loop and the run in closed form *)

Lemma loop_body_eq (item : Item.t) (m : Machine) :
  loop_body item m =
    if isReported item then
      match recorded (state m) item with
      | Throw e => (Throw e, m)
      | Ok true => (Ok tt, m)
      | Ok false =>
          if accepted item then
            if webhook_send w (sent m) (buildPayload item) then
              (Ok tt,
               {| disk := disk m;
                  state := push_all (state m) [entryOf item];
                  sent := S (sent m);
                  trace := trace m ++ attempt_trace (item, true) |})
            else
              (Throw DiscordError,
               {| disk := disk m; state := state m; sent := S (sent m);
                  trace := trace m ++ attempt_trace (item, false) |})
          else (Throw ValidationError, m)
      end
    else (Ok tt, m).
Proof.
  unfold loop_body, continue, ret.
  destruct (isReported item); simpl; [| reflexivity].
  unfold bind at 1, state_some. fold (recorded (state m) item).
  destruct (recorded (state m) item) as [[|] | e] eqn:Hrec;
    [reflexivity | | reflexivity].
  apply recorded_array in Hrec.
  unfold bind at 1, EmbedBuilder_build, accepted.
  destruct (EmbedBuilder_accepts (buildEmbed item)); [| reflexivity].
  unfold ret, bind, webhook_send_call, state_push, console, emit.
  fold (buildPayload item).
  destruct (webhook_send w (sent m) (buildPayload item)); simpl.
  - rewrite Hrec. simpl. now rewrite <- !app_assoc.
  - reflexivity.
Qed.

(** The outcome of the loop over [items], started in state [s] at call
    number [n]. *)
Definition loop_outcome (s : State) (n : nat) (items : list Item.t)
  : result unit :=
  match stopped n (queue s items) with
  | Some e => Throw e
  | None => if faulty s items then Throw TypeError else Ok tt
  end.

Lemma for_of_loop_body (items : list Item.t) : forall m : Machine,
  for_of items loop_body m =
    let att := deliver (sent m) (queue (state m) items) in
    (loop_outcome (state m) (sent m) items,
     {| disk := disk m;
        state := push_all (state m) (map entryOf (delivered att));
        sent := sent m + List.length att;
        trace := trace m ++ flat_map attempt_trace att |}).
Proof.
  induction items as [| item rest IH]; intros m.
  - destruct m as [d s n tr]. unfold loop_outcome. simpl. unfold ret.
    now rewrite push_all_nil, app_nil_r, Nat.add_0_r.
  - simpl for_of. unfold bind. rewrite loop_body_eq.
    unfold loop_outcome in *. simpl queue. simpl faulty.
    destruct (isReported item); [| apply IH].
    destruct (recorded (state m) item) as [[|] | e] eqn:Hrec.
    + apply IH.
    + simpl deliver. simpl stopped.
      destruct (accepted item).
      * destruct (webhook_send w (sent m) (buildPayload item)) eqn:Hsend.
        -- rewrite IH. simpl. unfold delivered. simpl.
           rewrite push_all_app. simpl.
           f_equal. f_equal; rewrite <- ?app_assoc; simpl;
             try reflexivity; lia.
        -- destruct m as [d s n tr]. simpl. unfold delivered. simpl.
           rewrite push_all_nil.
           f_equal. f_equal; try reflexivity; lia.
      * destruct m as [d s n tr]. simpl. unfold delivered. simpl.
        now rewrite push_all_nil, app_nil_r, Nat.add_0_r.
    + apply recorded_throw in Hrec. subst e.
      destruct m as [d s n tr]. simpl. unfold delivered. simpl.
      now rewrite push_all_nil, app_nil_r, Nat.add_0_r.
Qed.

Lemma loadState_eq (m : Machine) :
  loadState m =
    (Ok (loaded (disk m)),
     {| disk := disk m; state := state m; sent := sent m;
        trace := trace m ++ [FsReadFile] |}).
Proof.
  unfold loadState, try_catch, fs_readFile, JSON_parse, loaded.
  unfold bind, emit, throw, ret. simpl.
  destruct (disk m) as [| | [text | s]]; reflexivity.
Qed.

(** The delivery queue of a run that loads the state file [f] and
    fetches the batch [b]. *)
Definition run_queue (f : file) (b : list Item.t) : list Item.t :=
  queue (loaded f) (Array_sort compareDates b).

(** The attempts of a whole run started on the state file [f]. *)
Definition run_attempts (f : file) : list (Item.t * bool) :=
  match batch with
  | Some b => deliver 0 (run_queue f b)
  | None => []
  end.

(** What the [try] block throws, if anything. *)
Definition thrown (f : file) : option exn :=
  match axios_get w with
  | Throw e => Some e
  | Ok (Val d) =>
      match loop_outcome (loaded f) 0
              (Array_sort compareDates (nullish (earningsCalendar d) [])) with
      | Throw e => Some e
      | Ok _ => None
      end
  | Ok _ => Some TypeError
  end.

(** What the [catch] block logs. *)
Definition caught (f : file) : list Effect :=
  match thrown f with
  | Some e => [Console (ErrorSendingMessages e)]
  | None => []
  end.

(** The state a run ends with. *)
Definition final_state (f : file) : State :=
  push_all (loaded f) (map entryOf (delivered (run_attempts f))).

(** What [saveState] and the rest of the [finally] block leave in the
    trace after the first line of [saveState], for the state [s]. *)
Definition closing (s : State) : list Effect :=
  match fs_writeFile w with
  | None =>
      FsWriteFile (StateJson s) true :: Console StateSaved
      :: match get "length" s with
         | Ok n => [Console (TotalRecords n); WebhookDestroy]
         | Throw _ => []
         end
  | Some _ => [ FsWriteFile (StateJson s) false ]
  end.

(** How [main] ends. *)
Definition main_result (f : file) : result unit :=
  match fs_writeFile w with
  | None =>
      match get "length" (final_state f) with
      | Ok _ => Ok tt
      | Throw e => Throw e
      end
  | Some _ => Throw WriteError
  end.

Lemma run_eq (f : file) :
  run f =
    (main_result f,
     {| disk := match fs_writeFile w with
                | None => Holds (StateJson (final_state f))
                | Some f' => f'
                end;
        state := final_state f;
        sent := List.length (run_attempts f);
        trace := FsReadFile :: HttpGet
                 :: flat_map attempt_trace (run_attempts f)
                    ++ caught f
                    ++ Console SavingState :: closing (final_state f) |}).
Proof.
  unfold run, main. unfold bind at 1. rewrite loadState_eq.
  unfold bind at 1, bind_state. simpl.
  unfold try_finally, try_catch, main_result, final_state, closing,
    run_attempts, caught, thrown, batch.
  unfold bind at 1, axios_get_call, bind at 1, emit. simpl.
  destruct (axios_get w) as [[| | d] | e]; simpl.
  1, 2, 4:
    unfold bind, read_state, state_length, saveState, bind, console, emit,
      fs_writeFile_call, JSON_stringify; simpl;
    rewrite push_all_nil;
    destruct (fs_writeFile w); simpl; [reflexivity |];
    destruct (get "length" (loaded f)); reflexivity.
  unfold bind at 1, unsorted_earnings, ret.
  rewrite for_of_loop_body. simpl. unfold run_queue.
  set (att := deliver 0 _). set (s' := push_all (loaded f) _).
  destruct (loop_outcome (loaded f) 0 _) as [[] | e]; simpl;
    unfold bind, read_state, state_length, saveState, bind, console, emit,
      fs_writeFile_call, JSON_stringify; simpl;
    (destruct (fs_writeFile w); simpl;
     [rewrite <- ?app_assoc; simpl; rewrite ?app_nil_r; reflexivity |]);
    destruct (get "length" s'); simpl;
    rewrite <- ?app_assoc; simpl; rewrite ?app_nil_r; reflexivity.
Qed.

(** ** Projections of the trace of a run *)

Lemma attempts_app (t1 t2 : list Effect) :
  attempts (t1 ++ t2) = attempts t1 ++ attempts t2.
Proof.
  induction t1 as [| e t1 IH]; simpl; [reflexivity |].
  destruct e; simpl; now rewrite IH.
Qed.

Lemma payloads_app (t1 t2 : list Effect) :
  payloads (t1 ++ t2) = payloads t1 ++ payloads t2.
Proof.
  induction t1 as [| e t1 IH]; simpl; [reflexivity |].
  destruct e; simpl; now rewrite IH.
Qed.

Lemma writes_app (t1 t2 : list Effect) :
  writes (t1 ++ t2) = writes t1 ++ writes t2.
Proof.
  induction t1 as [| e t1 IH]; simpl; [reflexivity |].
  destruct e; simpl; now rewrite IH.
Qed.

Lemma saveState_calls_app (t1 t2 : list Effect) :
  saveState_calls (t1 ++ t2) = saveState_calls t1 + saveState_calls t2.
Proof.
  induction t1 as [| e t1 IH]; simpl; [reflexivity |].
  destruct e as [ | | | | | [] | ]; simpl; now rewrite IH.
Qed.

(** The trace of the loop shows the attempts and nothing else of
    interest. *)
Lemma loop_trace (att : list (Item.t * bool)) :
  attempts (flat_map attempt_trace att) = att
  /\ payloads (flat_map attempt_trace att) = map buildPayload (map fst att)
  /\ writes (flat_map attempt_trace att) = []
  /\ saveState_calls (flat_map attempt_trace att) = 0.
Proof.
  induction att as [| [item ok] att (Ha & Hp & Hw & Hs)]; simpl; [auto |].
  rewrite attempts_app, payloads_app, writes_app, saveState_calls_app,
    Ha, Hp, Hw, Hs.
  destruct ok; simpl; auto.
Qed.

Lemma caught_silent (f : file) :
  attempts (caught f) = [] /\ payloads (caught f) = []
  /\ writes (caught f) = [] /\ saveState_calls (caught f) = 0.
Proof.
  unfold caught. destruct (thrown f); simpl; auto.
Qed.

Definition write_ok : bool :=
  match fs_writeFile w with None => true | Some _ => false end.

Lemma closing_silent (s : State) :
  attempts (closing s) = [] /\ payloads (closing s) = []
  /\ writes (closing s) = [(StateJson s, write_ok)]
  /\ saveState_calls (closing s) = 0.
Proof.
  unfold closing, write_ok.
  destruct (fs_writeFile w); simpl; [auto |].
  destruct (get "length" s); simpl; auto.
Qed.

Lemma run_trace_eq (f : file) :
  trace (snd (run f))
  = FsReadFile :: HttpGet
    :: flat_map attempt_trace (run_attempts f)
       ++ caught f
       ++ Console SavingState :: closing (final_state f).
Proof. now rewrite run_eq. Qed.

Lemma run_state (f : file) : state (snd (run f)) = final_state f.
Proof. now rewrite run_eq. Qed.


Lemma run_attempts_eq (f : file) :
  attempts (trace (snd (run f))) = run_attempts f.
Proof.
  destruct (loop_trace (run_attempts f)) as (Ha & _).
  destruct (caught_silent f) as (Hc & _).
  destruct (closing_silent (final_state f)) as (Hz & _).
  rewrite run_trace_eq. simpl.
  rewrite !attempts_app, Ha, Hc. simpl. now rewrite Hz, app_nil_r.
Qed.

Lemma run_payloads_eq (f : file) :
  payloads (trace (snd (run f)))
  = map buildPayload (map fst (run_attempts f)).
Proof.
  destruct (loop_trace (run_attempts f)) as (_ & Hp & _).
  destruct (caught_silent f) as (_ & Hc & _).
  destruct (closing_silent (final_state f)) as (_ & Hz & _).
  rewrite run_trace_eq. simpl.
  rewrite !payloads_app, Hp, Hc. simpl. now rewrite Hz, app_nil_r.
Qed.




(* ================================================================= *)
(** * The two gates and the delivery queue *)

Lemma isReported_iff (item : Item.t) :
  isReported item = true
  <-> Item.epsActual item <> Null \/ Item.revenueActual item <> Null.
Proof.
  unfold isReported. rewrite orb_true_iff.
  destruct (Item.epsActual item), (Item.revenueActual item); simpl;
    split; intros [H | H]; try discriminate; try congruence;
    try (left; discriminate); try (right; discriminate);
    try (left; reflexivity); try (right; reflexivity).
Qed.

Lemma subseq_refl {A : Type} (l : list A) : subseq l l.
Proof. induction l; constructor; assumption. Qed.

Lemma subseq_In {A : Type} (l1 l2 : list A) (x : A) :
  subseq l1 l2 -> In x l1 -> In x l2.
Proof.
  induction 1; simpl; intuition.
Qed.


Lemma subseq_nil_l {A : Type} (l : list A) : subseq [] l.
Proof. induction l; constructor; assumption. Qed.

Lemma subseq_app_l {A : Type} (l r : list A) : subseq l (l ++ r).
Proof.
  induction l as [| x l IH]; simpl.
  - apply subseq_nil_l.
  - now apply subseq_keep.
Qed.


Lemma subseq_StronglySorted {A : Type} (R : A -> A -> Prop)
      (l1 l2 : list A) :
  subseq l1 l2 -> StronglySorted R l2 -> StronglySorted R l1.
Proof.
  induction 1 as [| x l1 l2 H IH | x l1 l2 H IH]; intros Hs.
  - constructor.
  - inversion Hs; subst. now apply IH.
  - inversion Hs as [| ? ? Hs' Hall]; subst. constructor.
    + now apply IH.
    + rewrite Forall_forall in *. intros y Hy. apply Hall.
      eapply subseq_In; eassumption.
Qed.

Lemma subseq_map {A B : Type} (g : A -> B) (l1 l2 : list A) :
  subseq l1 l2 -> subseq (map g l1) (map g l2).
Proof.
  induction 1; simpl; constructor; assumption.
Qed.

Lemma subseq_NoDup {A : Type} (l1 l2 : list A) :
  subseq l1 l2 -> NoDup l2 -> NoDup l1.
Proof.
  induction 1 as [| x l1 l2 H IH | x l1 l2 H IH]; intros Hnd.
  - constructor.
  - inversion Hnd; subst. now apply IH.
  - inversion Hnd as [| ? ? Hx Hnd']; subst. constructor; [| now apply IH].
    intros Hin. apply Hx. eapply subseq_In; eassumption.
Qed.


Lemma subseq_length {A : Type} (l1 l2 : list A) :
  subseq l1 l2 -> List.length l1 <= List.length l2.
Proof.
  induction 1; simpl; lia.
Qed.

Lemma filter_Permutation_length {A : Type} (p : A -> bool) (l1 l2 : list A) :
  Permutation l1 l2 ->
  List.length (filter p l1) = List.length (filter p l2).
Proof.
  induction 1; simpl; try lia.
  - destruct (p x); simpl; lia.
  - destruct (p x), (p y); simpl; lia.
Qed.

(** The queue keeps the loop order. *)
Lemma queue_subseq (items : list Item.t) : forall s : State,
  subseq (queue s items) items.
Proof.
  induction items as [| item rest IH]; intros s; simpl.
  - constructor.
  - destruct (isReported item); [| apply subseq_skip, IH].
    destruct (recorded s item) as [[|] | e].
    + apply subseq_skip, IH.
    + apply subseq_keep, IH.
    + apply subseq_nil_l.
Qed.

(** Only reported items are queued. *)
Lemma queue_reported (items : list Item.t) : forall (s : State) item,
  In item (queue s items) -> isReported item = true.
Proof.
  induction items as [| x rest IH]; intros s item; simpl; [tauto |].
  destruct (isReported x) eqn:Hr; [| apply IH].
  destruct (recorded s x) as [[|] | e]; simpl.
  - apply IH.
  - intros [<- | H]; [assumption | eapply IH; eassumption].
  - tauto.
Qed.

(** Whatever the state, the keys queued are pairwise distinct and none of
    them is recorded already. *)
Lemma queue_fresh (items : list Item.t) : forall s : State,
  NoDup (map entryOf (queue s items))
  /\ forall item, In item (queue s items) -> recorded s item = Ok false.
Proof.
  induction items as [| x rest IH]; intros s; simpl.
  - split; [constructor | tauto].
  - destruct (isReported x); [| apply IH].
    destruct (recorded s x) as [[|] | e] eqn:He; simpl;
      [apply IH | | split; [constructor | tauto]].
    destruct (IH (push_all s [entryOf x])) as [Hnd Hfresh].
    assert (Hstep : forall y, In y (queue (push_all s [entryOf x]) rest) ->
                              recorded s y = Ok false
                              /\ same_key x y = false).
    { intros y Hy. specialize (Hfresh y Hy).
      change [entryOf x] with (map entryOf [x]) in Hfresh.
      rewrite recorded_push_all in Hfresh. simpl in Hfresh.
      destruct (recorded s y) as [[|] | e']; try discriminate.
      split; [reflexivity |].
      destruct (same_key x y); [discriminate | reflexivity]. }
    split.
    + constructor; [| assumption].
      rewrite in_map_iff. intros (y & Hy & Hin).
      destruct (Hstep y Hin) as [_ Hk].
      symmetry in Hy. apply same_key_eq in Hy. congruence.
    + intros item [<- | Hin]; [assumption |]. now apply Hstep.
Qed.

(** Unless [state.some] throws on the way, every reported item of the
    batch is either recorded already or has its key in the queue. *)
Lemma queue_covers (items : list Item.t) : forall (s : State) item,
  faulty s items = false ->
  In item items -> isReported item = true ->
  recorded s item = Ok true
  \/ exists j, In j (queue s items) /\ entryOf j = entryOf item.
Proof.
  induction items as [| x rest IH]; intros s item; simpl; [tauto |].
  intros Hf [-> | Hin] Hr.
  - rewrite Hr in *.
    destruct (recorded s item) as [[|] | e]; [now left | | discriminate].
    right. exists item. split; [now left | reflexivity].
  - destruct (isReported x); [| now apply IH].
    destruct (recorded s x) as [[|] | e] eqn:Hx; [now apply IH | | discriminate].
    destruct (IH (push_all s [entryOf x]) item Hf Hin Hr) as [H | (j & Hj & Hk)].
    + change [entryOf x] with (map entryOf [x]) in H.
      rewrite recorded_push_all in H. simpl in H.
      destruct (recorded s item) as [[|] | e']; [now left | | discriminate].
      right. exists x. split; [now left |].
      apply same_key_eq. destruct (same_key x item); [reflexivity | discriminate].
    + right. exists j. split; [now right | assumption].
Qed.

(** Nothing is queued when every reported item is recorded already. *)
Lemma queue_nil (items : list Item.t) (s : State) :
  (forall item, In item items -> isReported item = true ->
                recorded s item = Ok true) ->
  queue s items = [].
Proof.
  induction items as [| x rest IH]; intros Hrec; simpl; [reflexivity |].
  destruct (isReported x) eqn:Hr.
  - rewrite (Hrec x (or_introl eq_refl) Hr).
    apply IH. intros item Hin. apply Hrec. now right.
  - apply IH. intros item Hin. apply Hrec. now right.
Qed.

Lemma queue_length (items : list Item.t) : forall s : State,
  List.length (queue s items) <= List.length (filter isReported items).
Proof.
  induction items as [| x rest IH]; intros s; simpl; [lia |].
  destruct (isReported x); simpl; [| apply IH].
  destruct (recorded s x) as [[|] | e]; simpl.
  - specialize (IH s). lia.
  - specialize (IH (push_all s [entryOf x])). lia.
  - lia.
Qed.


(** Records pushed onto the state move no fault. *)
Lemma faulty_resume (items : list Item.t) : forall (s : State) (k : nat),
  faulty (push_all s (map entryOf (firstn k (queue s items)))) items
  = faulty s items.
Proof.
  induction items as [| x rest IH]; intros s k; cbn [queue faulty];
    [reflexivity |].
  destruct (isReported x) eqn:Hr; [| apply IH].
  destruct (recorded s x) as [[|] | e] eqn:He.
  - rewrite recorded_push_all, He. apply IH.
  - destruct k as [| k]; cbn [firstn].
    + cbn [map]. rewrite push_all_nil, He. reflexivity.
    + rewrite recorded_push_all, He. cbn [existsb].
      rewrite same_key_refl. cbn [orb].
      change (map entryOf
                (x :: firstn k (queue (push_all s [entryOf x]) rest)))
        with ([entryOf x]
                ++ map entryOf
                     (firstn k (queue (push_all s [entryOf x]) rest))).
      rewrite <- push_all_app.
      rewrite IH.
      reflexivity.
  - rewrite firstn_nil. cbn [map]. rewrite push_all_nil, He. reflexivity.
Qed.

(** When no reported item is recorded and no two of them share a key,
    the queue is simply the reported items. *)
Lemma queue_filter (items : list Item.t) : forall s : State,
  NoDup (map entryOf (filter isReported items)) ->
  (forall item, In item items -> isReported item = true ->
                recorded s item = Ok false) ->
  queue s items = filter isReported items.
Proof.
  induction items as [| x rest IH]; intros s Hnd Hnew; cbn [queue filter];
    [reflexivity |].
  cbn [filter] in Hnd. destruct (isReported x) eqn:Hr.
  - rewrite (Hnew x (or_introl eq_refl) Hr). f_equal.
    cbn [map] in Hnd. inversion Hnd as [| ? ? Hx Hnd']; subst.
    apply IH; [assumption |].
    intros item Hin Hrep.
    change [entryOf x] with (map entryOf [x]).
    rewrite recorded_push_all, (Hnew item (or_intror Hin) Hrep).
    cbn [existsb]. destruct (same_key x item) eqn:Hk; [| reflexivity].
    exfalso. apply Hx. apply same_key_eq in Hk. rewrite Hk.
    apply in_map, filter_In. now split.
  - apply IH; [assumption |].
    intros item Hin. apply Hnew. now right.
Qed.



(* ================================================================= *)
(** * Walking the queue *)

Definition succeeded (item : Item.t) : Item.t * bool := (item, true).

(** The attempts follow the queue, item by item, from its head. *)
Lemma deliver_prefix (q : list Item.t) : forall n,
  exists rest, q = map fst (deliver n q) ++ rest.
Proof.
  induction q as [| item q IH]; intros n; simpl.
  - now exists [].
  - destruct (accepted item); [| now exists (item :: q)].
    destruct (webhook_send w n (buildPayload item)); simpl.
    + destruct (IH (S n)) as [rest Hrest]. exists rest. now f_equal.
    + now exists q.
Qed.



Lemma attempted_subseq (q : list Item.t) (n : nat) :
  subseq (map fst (deliver n q)) q.
Proof.
  destruct (deliver_prefix q n) as [r1 H1].
  rewrite H1 at 2. apply subseq_app_l.
Qed.

(** Every item attempted had its embed accepted. *)
Lemma deliver_accepted (q : list Item.t) : forall n item ok,
  In (item, ok) (deliver n q) -> accepted item = true.
Proof.
  induction q as [| x q IH]; intros n item ok; simpl; [tauto |].
  destruct (accepted x) eqn:Hx; [| intros []].
  destruct (webhook_send w n (buildPayload x)); simpl.
  - intros [[= <- <-] | Hin]; [assumption | eapply IH; eassumption].
  - intros [[= <- <-] | []]. assumption.
Qed.

(** The walk reaches the end of the queue exactly when it delivers all
    of it. *)
Lemma stopped_None (q : list Item.t) : forall n,
  stopped n q = None <-> deliver n q = map succeeded q.
Proof.
  induction q as [| x q IH]; intros n; simpl; [tauto |].
  destruct (accepted x); [| split; discriminate].
  destruct (webhook_send w n (buildPayload x)).
  - rewrite IH. unfold succeeded at 2. split; [now intros -> | now intros [= ->]].
  - split; discriminate.
Qed.

(** A failed send stops the walk with the error of the webhook; a refused
    embed with the one of the builder. *)
Lemma stopped_DiscordError (q : list Item.t) : forall n,
  stopped n q = Some DiscordError
  <-> exists item, In (item, false) (deliver n q).
Proof.
  induction q as [| x q IH]; intros n; simpl.
  - split; [discriminate | intros [item []]].
  - destruct (accepted x); [| split; [discriminate | intros [item []]]].
    destruct (webhook_send w n (buildPayload x)).
    + rewrite IH. split; intros [item Hin]; exists item.
      * now right.
      * destruct Hin as [Hin | Hin]; [discriminate | assumption].
    + split; [intros _; exists x; now left | reflexivity].
Qed.

Lemma stopped_cases (q : list Item.t) : forall n e,
  stopped n q = Some e -> e = DiscordError \/ e = ValidationError.
Proof.
  induction q as [| x q IH]; intros n e; simpl; [discriminate |].
  destruct (accepted x); [| intros [= <-]; now right].
  destruct (webhook_send w n (buildPayload x)); [apply IH |].
  intros [= <-]. now left.
Qed.

(** When the builder accepts every item and no send fails, the whole
    queue is delivered. *)
Lemma deliver_all_ok (q : list Item.t) : forall n,
  (forall item, In item q -> accepted item = true) ->
  (forall k item, nth_error q k = Some item ->
                  webhook_send w (n + k) (buildPayload item) = true) ->
  deliver n q = map succeeded q.
Proof.
  induction q as [| item q IH]; intros n Hacc Hok; simpl; [reflexivity |].
  rewrite (Hacc item (or_introl eq_refl)).
  rewrite <- (Nat.add_0_r n) at 1.
  rewrite (Hok 0 item eq_refl). f_equal. apply IH.
  - intros i Hi. apply Hacc. now right.
  - intros k i Hk. replace (S n + k) with (n + S k) by lia. now apply Hok.
Qed.


(** When the builder refuses the item at position [k] and everything
    went well before, the items before it are delivered and nothing else
    is attempted. *)
Lemma deliver_refused_at (q : list Item.t) : forall n k refused,
  nth_error q k = Some refused ->
  (forall j item, j < k -> nth_error q j = Some item ->
                  accepted item = true
                  /\ webhook_send w (n + j) (buildPayload item) = true) ->
  accepted refused = false ->
  deliver n q = map succeeded (firstn k q)
  /\ stopped n q = Some ValidationError.
Proof.
  induction q as [| item q IH]; intros n k refused Hk Hok Href.
  - destruct k; discriminate.
  - destruct k as [| k]; simpl in *.
    + injection Hk as ->. now rewrite Href.
    + destruct (Hok 0 item (Nat.lt_0_succ k) eq_refl) as [Ha Hs].
      rewrite Nat.add_0_r in Hs. rewrite Ha, Hs.
      destruct (IH (S n) k refused Hk) as [Hd Hst]; [| assumption |].
      * intros j i Hj Hi. replace (S n + j) with (n + S j) by lia.
        apply Hok; [lia | assumption].
      * now rewrite Hd, Hst.
Qed.

Lemma delivered_succeeded (l : list Item.t) :
  delivered (map succeeded l) = l.
Proof.
  unfold delivered. induction l as [| x l IH]; simpl; [reflexivity |].
  now f_equal.
Qed.


Lemma delivered_In (att : list (Item.t * bool)) (item : Item.t) :
  In item (delivered att) <-> In (item, true) att.
Proof.
  unfold delivered. rewrite in_map_iff. split.
  - intros ([i ok] & Hfst & Hin). apply filter_In in Hin.
    simpl in *. destruct Hin as [Hin ->]. now subst.
  - intros Hin. exists (item, true). split; [reflexivity |].
    apply filter_In. now split.
Qed.

(** The attempts of a walk: the sends that succeeded, then at most one
    failure. *)
Lemma deliver_shape (q : list Item.t) : forall n,
  deliver n q = map succeeded (delivered (deliver n q))
  \/ exists item,
       deliver n q
       = map succeeded (delivered (deliver n q)) ++ [(item, false)].
Proof.
  induction q as [| x q IH]; intros n; simpl; [now left |].
  destruct (accepted x); [| now left].
  destruct (webhook_send w n (buildPayload x)).
  - unfold delivered in *. simpl.
    destruct (IH (S n)) as [H | [item H]].
    + left. unfold succeeded at 1. now f_equal.
    + right. exists item. unfold succeeded at 1. simpl. now f_equal.
  - right. exists x. reflexivity.
Qed.



Lemma all_ok_forall (att : list (Item.t * bool)) :
  all_ok att = true <-> forall item ok, In (item, ok) att -> ok = true.
Proof.
  unfold all_ok. rewrite forallb_forall. split.
  - intros H item ok Hin. exact (H (item, ok) Hin).
  - intros H [item ok] Hin. exact (H item ok Hin).
Qed.

(* ================================================================= *)
(** * Sorting by report date *)

Section SortFacts.

Context {A : Type}.
Variable comparefn : A -> A -> option Z.

Lemma insert_Permutation (x : A) (l : list A) :
  Permutation (insert comparefn x l) (x :: l).
Proof.
  induction l as [| y l IH]; simpl; [reflexivity |].
  destruct (SortCompare comparefn x y <=? 0)%Z; [reflexivity |].
  rewrite IH. apply perm_swap.
Qed.

Lemma Array_sort_Permutation (l : list A) :
  Permutation (Array_sort comparefn l) l.
Proof.
  induction l as [| x l IH]; simpl; [reflexivity |].
  rewrite insert_Permutation. now constructor.
Qed.

(** Elements that the comparator never orders strictly keep their
    relative order: the sort is stable. *)
Lemma insert_filter (p : A -> bool) (x : A) (l : list A) :
  (forall a b, p a = true -> p b = true ->
               (SortCompare comparefn a b <= 0)%Z) ->
  filter p (insert comparefn x l) = filter p (x :: l).
Proof.
  intros Hp. induction l as [| y l IH]; simpl; [reflexivity |].
  destruct (SortCompare comparefn x y <=? 0)%Z eqn:Hc; [reflexivity |].
  simpl in *. rewrite IH.
  destruct (p x) eqn:Hx, (p y) eqn:Hy; try reflexivity.
  apply Z.leb_gt in Hc. specialize (Hp x y Hx Hy). lia.
Qed.

Lemma Array_sort_filter (p : A -> bool) (l : list A) :
  (forall a b, p a = true -> p b = true ->
               (SortCompare comparefn a b <= 0)%Z) ->
  filter p (Array_sort comparefn l) = filter p l.
Proof.
  intros Hp. induction l as [| x l IH]; simpl; [reflexivity |].
  rewrite insert_filter by assumption. simpl. now rewrite IH.
Qed.

End SortFacts.

(** [a] is reported no later than [b]; both dates must be valid. *)
Definition date_le (a b : Item.t) : Prop :=
  match dateValue (Item.date a), dateValue (Item.date b) with
  | Some ta, Some tb => (ta <= tb)%Z
  | _, _ => False
  end.

Definition valid_date (item : Item.t) : Prop :=
  dateValue (Item.date item) <> None.

(** [a] and [b] carry the same report date. *)
Definition same_date (a b : Item.t) : bool :=
  match dateValue (Item.date a), dateValue (Item.date b) with
  | Some ta, Some tb => (ta =? tb)%Z
  | None, None => true
  | _, _ => false
  end.

Lemma same_date_SortCompare (x a b : Item.t) :
  same_date x a = true -> same_date x b = true ->
  (SortCompare compareDates a b <= 0)%Z.
Proof.
  unfold same_date, SortCompare, compareDates.
  destruct (dateValue (Item.date x)), (dateValue (Item.date a)),
    (dateValue (Item.date b)); try discriminate; lia.
Qed.

Lemma insert_sorted (x : Item.t) (l : list Item.t) :
  valid_date x -> Forall valid_date l ->
  StronglySorted date_le l ->
  StronglySorted date_le (insert compareDates x l).
Proof.
  intros Hx Hl Hs. induction Hs as [| y l Hs IH Hy]; simpl.
  - repeat constructor.
  - inversion Hl as [| ? ? Hvy Hl']; subst.
    destruct (SortCompare compareDates x y <=? 0)%Z eqn:Hc.
    + apply Z.leb_le in Hc.
      assert (Hxy : date_le x y).
      { unfold SortCompare, compareDates, date_le, valid_date in *.
        destruct (dateValue (Item.date x)), (dateValue (Item.date y));
          try congruence. lia. }
      constructor; [now constructor |]. constructor; [assumption |].
      rewrite Forall_forall in *. intros z Hz. specialize (Hy z Hz).
      unfold date_le in *.
      destruct (dateValue (Item.date x)), (dateValue (Item.date y)),
        (dateValue (Item.date z)); try tauto. lia.
    + apply Z.leb_gt in Hc. constructor; [now apply IH |].
      rewrite Forall_forall in *. intros z Hz.
      apply (Permutation_in _ (insert_Permutation compareDates x l)) in Hz.
      destruct Hz as [<- | Hz]; [| now apply Hy].
      unfold SortCompare, compareDates, date_le, valid_date in *.
      destruct (dateValue (Item.date x)), (dateValue (Item.date y));
        try congruence. lia.
Qed.

Lemma Array_sort_sorted (l : list Item.t) :
  Forall valid_date l -> StronglySorted date_le (Array_sort compareDates l).
Proof.
  induction 1 as [| x l Hx Hl IH]; simpl; [constructor |].
  apply insert_sorted; [assumption | | assumption].
  rewrite Forall_forall in *. intros z Hz. apply Hl.
  eapply Permutation_in; [apply Array_sort_Permutation | eassumption].
Qed.

(* ================================================================= *)
(** * What a run attempts, throws and logs *)

Lemma errors_app (t1 t2 : list Effect) :
  errors (t1 ++ t2) = errors t1 ++ errors t2.
Proof.
  induction t1 as [| e t1 IH]; simpl; [reflexivity |].
  destruct e as [ | | | | | [] | ]; simpl; now rewrite IH.
Qed.

Lemma sleeps_app (t1 t2 : list Effect) :
  sleeps (t1 ++ t2) = sleeps t1 ++ sleeps t2.
Proof.
  induction t1 as [| e t1 IH]; simpl; [reflexivity |].
  destruct e; simpl; now rewrite IH.
Qed.

Lemma reads_app (t1 t2 : list Effect) :
  reads (t1 ++ t2) = reads t1 + reads t2.
Proof.
  induction t1 as [| e t1 IH]; simpl; [reflexivity |].
  destruct e; simpl; now rewrite IH.
Qed.

Lemma requests_app (t1 t2 : list Effect) :
  requests (t1 ++ t2) = requests t1 + requests t2.
Proof.
  induction t1 as [| e t1 IH]; simpl; [reflexivity |].
  destruct e; simpl; now rewrite IH.
Qed.

Lemma sent_log_app (t1 t2 : list Effect) :
  sent_log (t1 ++ t2) = sent_log t1 ++ sent_log t2.
Proof.
  induction t1 as [| e t1 IH]; simpl; [reflexivity |].
  destruct e as [ | | | | | [] | ]; simpl; now rewrite IH.
Qed.

Lemma loop_trace_quiet (att : list (Item.t * bool)) :
  reads (flat_map attempt_trace att) = 0
  /\ requests (flat_map attempt_trace att) = 0
  /\ errors (flat_map attempt_trace att) = []
  /\ sleeps (flat_map attempt_trace att)
     = map (fun _ => SLEEP_BETWEEN_SENDS) (delivered att)
  /\ sent_log (flat_map attempt_trace att) = map entryOf (delivered att).
Proof.
  unfold delivered.
  induction att as [| [item ok] att (IH1 & IH2 & IH3 & IH4 & IH5)]; simpl;
    [auto |].
  rewrite reads_app, requests_app, errors_app, sleeps_app, sent_log_app,
    IH1, IH2, IH3, IH4, IH5.
  destruct ok; simpl; auto.
Qed.

Lemma caught_quiet (f : file) :
  reads (caught f) = 0 /\ requests (caught f) = 0
  /\ sleeps (caught f) = [] /\ sent_log (caught f) = []
  /\ errors (caught f)
     = match thrown f with Some e => [e] | None => [] end.
Proof.
  unfold caught. destruct (thrown f); simpl; auto.
Qed.

Lemma closing_quiet (s : State) :
  reads (closing s) = 0 /\ requests (closing s) = 0
  /\ sleeps (closing s) = [] /\ sent_log (closing s) = []
  /\ errors (closing s) = [].
Proof.
  unfold closing. destruct (fs_writeFile w); simpl; [auto |].
  destruct (get "length" s); simpl; auto.
Qed.

Lemma run_errors_eq (f : file) :
  errors (trace (snd (run f)))
  = match thrown f with Some e => [e] | None => [] end.
Proof.
  rewrite run_trace_eq. simpl. rewrite !errors_app. simpl.
  destruct (loop_trace_quiet (run_attempts f)) as (_ & _ & -> & _).
  destruct (caught_quiet f) as (_ & _ & _ & _ & ->).
  destruct (closing_quiet (final_state f)) as (_ & _ & _ & _ & ->).
  now rewrite app_nil_r.
Qed.

Lemma errors_nil_thrown (f : file) :
  errors (trace (snd (run f))) = [] <-> thrown f = None.
Proof.
  rewrite run_errors_eq. destruct (thrown f); split; congruence.
Qed.

Lemma thrown_batch (f : file) (b : list Item.t) :
  batch = Some b ->
  thrown f
  = match loop_outcome (loaded f) 0 (Array_sort compareDates b) with
    | Throw e => Some e
    | Ok _ => None
    end.
Proof.
  unfold batch, thrown.
  destruct (axios_get w) as [[| | d] | e]; try discriminate.
  now intros [= <-].
Qed.

Lemma thrown_no_batch (f : file) :
  batch = None -> thrown f <> None /\ run_attempts f = [].
Proof.
  unfold batch, thrown, run_attempts, batch.
  destruct (axios_get w) as [[| | d] | e]; try discriminate;
    intros _; (split; [discriminate | reflexivity]).
Qed.

(** The [try] block goes through exactly when the walk reaches the end
    of the queue and no lookup throws. *)
Lemma thrown_None (f : file) :
  thrown f = None
  <-> exists b, batch = Some b
                /\ stopped 0 (run_queue f b) = None
                /\ faulty (loaded f) (Array_sort compareDates b) = false.
Proof.
  split.
  - intros H. destruct batch as [b |] eqn:Hb.
    + exists b. split; [reflexivity |].
      rewrite (thrown_batch f b Hb) in H. unfold loop_outcome in H.
      fold (run_queue f b) in H.
      destruct (stopped 0 (run_queue f b)); [discriminate |].
      destruct (faulty (loaded f) _); [discriminate | now split].
  + now destruct (thrown_no_batch f Hb).
  - intros (b & Hb & Hs & Hf). rewrite (thrown_batch f b Hb).
    unfold loop_outcome. fold (run_queue f b). now rewrite Hs, Hf.
Qed.

Lemma In_Array_sort (b : list Item.t) (item : Item.t) :
  In item (Array_sort compareDates b) <-> In item b.
Proof.
  split; apply Permutation_in;
    [| symmetry]; apply Array_sort_Permutation.
Qed.

(** ** Lookups that do not throw *)

Lemma intact_recorded (s : State) (item : Item.t) :
  intact s = true -> exists b, recorded s item = Ok b.
Proof.
  unfold intact, recorded, some. destruct s as [| b | n | t | es | ps];
    try discriminate.
  induction es as [| x es IH]; simpl; intros H; [now exists false |].
  apply andb_true_iff in H. destruct H as [Hx Hes].
  destruct (matches item x) as [[|] | e] eqn:Hm.
  - now exists true.
  - now apply IH.
  - apply matches_throw in Hm. destruct Hm as [-> _]. discriminate.
Qed.

Lemma recorded_false_intact (s : State) (item : Item.t) :
  recorded s item = Ok false -> intact s = true.
Proof.
  intros H. apply recorded_false in H. destruct H as [Hs H].
  rewrite Hs. simpl. apply forallb_forall. intros e He.
  rewrite Forall_forall in H. specialize (H e He).
  apply matches_false in H. destruct H as [H _]. now destruct e.
Qed.

Lemma intact_push_all (s : State) (js : list Item.t) :
  intact s = true -> intact (push_all s (map entryOf js)) = true.
Proof.
  unfold intact, push_all. destruct s; try discriminate.
  intros H. rewrite forallb_app, H. simpl.
  apply forallb_forall. intros e He. apply in_map_iff in He.
  now destruct He as (j & <- & _).
Qed.

Lemma intact_not_faulty (items : list Item.t) : forall s : State,
  intact s = true -> faulty s items = false.
Proof.
  induction items as [| x rest IH]; intros s Hs; simpl; [reflexivity |].
  destruct (isReported x); [| now apply IH].
  destruct (intact_recorded s x Hs) as [[|] ->]; [now apply IH |].
  apply IH. now apply (intact_push_all s [x]).
Qed.

Lemma intact_not_null (s : State) : intact s = true -> s <> JNull.
Proof. now destruct s. Qed.

(** A fault is a reported item on which the lookup throws, already in
    the state the loop started with. *)
Lemma faulty_throws (items : list Item.t) : forall s : State,
  faulty s items = true ->
  exists x, In x items /\ isReported x = true
            /\ recorded s x = Throw TypeError.
Proof.
  induction items as [| x rest IH]; intros s; simpl; [discriminate |].
  destruct (isReported x) eqn:Hr.
  - destruct (recorded s x) as [[|] | e] eqn:He.
    + intros H. destruct (IH s H) as (y & Hy & Hry & Hty).
      exists y. split; [now right | now split].
    + intros H. destruct (IH _ H) as (y & Hy & Hry & Hty).
      exists y. split; [now right |]. split; [assumption |].
      change [entryOf x] with (map entryOf [x]) in Hty.
      rewrite recorded_push_all in Hty.
      destruct (recorded s y) as [[|] | e']; try discriminate. exact Hty.
    + intros _. exists x. split; [now left |]. split; [assumption |].
      now rewrite (recorded_throw s x e He) in He.
  - intros H. destruct (IH s H) as (y & Hy & Hry & Hty).
    exists y. split; [now right | now split].
Qed.

(** Where the walk stops, an item of the queue is left undelivered. *)
Lemma stopped_leaves (q : list Item.t) : forall n e,
  stopped n q = Some e ->
  NoDup (map entryOf q) ->
  exists r, In r q
            /\ forall j, In j (delivered (deliver n q)) ->
                         same_key j r = false.
Proof.
  induction q as [| x q IH]; intros n e; simpl; [discriminate |].
  intros Hst Hnd. inversion Hnd as [| ? ? Hx Hnd']; subst.
  destruct (accepted x).
  - destruct (webhook_send w n (buildPayload x)).
    + destruct (IH (S n) e Hst Hnd') as (r & Hr & Hfresh).
      exists r. split; [now right |].
      unfold delivered. simpl. intros j [<- | Hj].
      * destruct (same_key x r) eqn:Hk; [| reflexivity].
        exfalso. apply Hx. apply same_key_eq in Hk. rewrite Hk.
        now apply in_map.
      * now apply Hfresh.
    + exists x. split; [now left |]. intros j [].
  - exists x. split; [now left |]. intros j [].
Qed.

(** ** The attempts of a run *)


(** The keys sent in one run are pairwise distinct and none of them was
    recorded when the run started; every item sent is a reported item of
    the batch whose embed the builder accepted. *)
Lemma run_attempts_fresh (f : file) :
  NoDup (map entryOf (map fst (run_attempts f)))
  /\ forall item ok, In (item, ok) (run_attempts f) ->
       recorded (loaded f) item = Ok false
       /\ isReported item = true
       /\ accepted item = true
       /\ exists b, batch = Some b /\ In item b.
Proof.
  unfold run_attempts. destruct batch as [b |]; simpl.
  - destruct (queue_fresh (Array_sort compareDates b) (loaded f))
      as [Hnd Hfresh].
    split.
    + eapply subseq_NoDup; [| exact Hnd].
      apply subseq_map, attempted_subseq.
    + intros item ok Hin.
      assert (Hq : In item (run_queue f b)).
      { eapply subseq_In; [apply (attempted_subseq _ 0) |].
        apply in_map_iff. now exists (item, ok). }
      split; [now apply Hfresh |].
      split; [eapply queue_reported; exact Hq |].
      split; [eapply deliver_accepted; exact Hin |].
      exists b. split; [reflexivity |].
      apply In_Array_sort. eapply subseq_In; [apply queue_subseq | exact Hq].
  - split; [constructor | tauto].
Qed.

(** In a run whose [try] block goes through, every reported item of the
    batch was recorded before the run or has had its key sent. *)
Lemma run_delivers (f : file) (b : list Item.t) (item : Item.t) :
  batch = Some b -> thrown f = None ->
  In item b -> isReported item = true ->
  recorded (loaded f) item = Ok true
  \/ exists j, In (j, true) (run_attempts f) /\ entryOf j = entryOf item.
Proof.
  intros Hb Hth Hin Hr.
  apply thrown_None in Hth. destruct Hth as (b' & Hb' & Hst & Hf).
  assert (b' = b) by congruence. subst b'.
  apply stopped_None in Hst. unfold run_attempts. rewrite Hb, Hst.
  apply In_Array_sort in Hin.
  destruct (queue_covers _ (loaded f) item Hf Hin Hr) as [H | (j & Hj & Hk)];
    [now left |].
  right. exists j. split; [| assumption].
  apply in_map_iff. now exists j.
Qed.

(** When the state is an array without [null], the builder accepts the
    reported items and every send succeeds, the [try] block goes
    through. *)
Lemma run_goes_through (f : file) (b : list Item.t) :
  batch = Some b ->
  intact (loaded f) = true ->
  (forall j, In j b -> isReported j = true -> accepted j = true) ->
  (forall n p, webhook_send w n p = true) ->
  thrown f = None /\ run_attempts f = map succeeded (run_queue f b).
Proof.
  intros Hb Hs Hacc Hok.
  assert (Hd : deliver 0 (run_queue f b) = map succeeded (run_queue f b)).
  { apply deliver_all_ok; [| intros k item _; apply Hok].
    intros item Hq. apply Hacc.
    - apply In_Array_sort. eapply subseq_In; [apply queue_subseq | exact Hq].
    - eapply queue_reported; exact Hq. }
  split.
  - apply thrown_None. exists b. split; [assumption |].
    split; [now apply stopped_None | now apply intact_not_faulty].
  - unfold run_attempts. now rewrite Hb.
Qed.

(** The state a run ends with holds the key of an item exactly when the
    loaded state did or the key was sent. *)
Lemma recorded_final (f : file) (item : Item.t) :
  recorded (final_state f) item
  = match recorded (loaded f) item with
    | Ok false =>
        Ok (existsb (fun j => same_key j item) (delivered (run_attempts f)))
    | r => r
    end.
Proof. apply recorded_push_all. Qed.




(* ================================================================= *)
(** * Properties of a run *)








(** Whether a turn of the loop calls [webhook.send] for the item, when
    [state] is [s]: the item is reported, [state.some] returns false, and
    the builder accepts the embed. *)
Definition passes (s : State) (item : Item.t) : bool :=
  isReported item
  && match recorded s item with Ok false => true | _ => false end
  && accepted item.

(** What one turn of the loop does to the calls and to the state: the
    item is sent exactly when it passes, and its record is pushed exactly
    when that send succeeds. *)
Lemma loop_body_step (item : Item.t) (m : Machine) :
  let ok := webhook_send w (sent m) (buildPayload item) in
  attempts (trace (snd (loop_body item m)))
  = attempts (trace m) ++ (if passes (state m) item then [(item, ok)] else [])
  /\ state (snd (loop_body item m))
     = if passes (state m) item && ok
       then push_all (state m) [entryOf item] else state m.
Proof.
  cbv zeta. rewrite loop_body_eq. unfold passes.
  destruct (isReported item); simpl; [| now rewrite app_nil_r].
  destruct (recorded (state m) item) as [[|] | e]; simpl;
    try (now rewrite app_nil_r).
  destruct (accepted item); simpl; [| now rewrite app_nil_r].
  destruct (webhook_send w (sent m) (buildPayload item)); simpl;
    rewrite attempts_app; simpl; auto.
Qed.

(** When the state is an array without [null], the builder accepts the
    reported items of the batch and every send succeeds, a reported item
    that is not recorded has its key sent, and is sent itself when no
    other item of the batch has its key. *)
Lemma run_sends (f : file) (b : list Item.t) (item : Item.t) :
  batch = Some b -> In item b -> isReported item = true ->
  recorded (loaded f) item = Ok false ->
  (forall j, In j b -> isReported j = true -> accepted j = true) ->
  (forall n p, webhook_send w n p = true) ->
  (exists j, In (j, true) (run_attempts f) /\ entryOf j = entryOf item)
  /\ ((forall j, In j b -> entryOf j = entryOf item -> j = item) ->
      In (item, true) (run_attempts f)).
Proof.
  intros Hb Hin Hr Hnew Hacc Hok.
  destruct (run_goes_through f b Hb (recorded_false_intact _ _ Hnew) Hacc Hok)
    as [Hth _].
  destruct (run_delivers f b item Hb Hth Hin Hr) as [H | (j & Hj & Hk)];
    [congruence |].
  split; [now exists j |].
  intros Huniq. rewrite <- (Huniq j); [exact Hj | | exact Hk].
  destruct (run_attempts_fresh f) as [_ Hfresh].
  destruct (Hfresh j true Hj) as (_ & _ & _ & b' & Hb' & Hjb).
  congruence.
Qed.

(** C3.  The reportability gate lets an item through exactly when its
    [epsActual] or its [revenueActual] is not [null].  No run ever calls
    [webhook.send] for an item that fails the gate -- in particular for one
    whose two fields are both [null], whatever its estimates.  And the
    gate is the only test on the item itself: in a run in which nothing
    fails -- the builder accepts the reported items and every send
    succeeds -- a reported item of the batch whose (symbol, date) is not
    recorded has that key sent, and is sent itself when no other item of
    the batch has its key; more generally this holds of every run that
    logs no error. *)
Theorem reportable_iff_actual_not_null (item : Item.t) :
  (isReported item = true
   <-> Item.epsActual item <> Null \/ Item.revenueActual item <> Null)
  /\ (forall s items, In item (queue s items) ->
                      In item items /\ isReported item = true)
  /\ (forall f ok, In (item, ok) (attempts (trace (snd (run f)))) ->
                   isReported item = true)
  /\ (Item.epsActual item = Null -> Item.revenueActual item = Null ->
      forall f ok, ~ In (item, ok) (attempts (trace (snd (run f)))))
  /\ (forall f b,
        batch = Some b -> In item b -> isReported item = true ->
        recorded (loaded f) item = Ok false ->
        (forall j, In j b -> isReported j = true -> accepted j = true) ->
        (forall n p, webhook_send w n p = true) ->
        (exists j, In (j, true) (attempts (trace (snd (run f))))
                   /\ entryOf j = entryOf item)
        /\ ((forall j, In j b -> entryOf j = entryOf item -> j = item) ->
            In (item, true) (attempts (trace (snd (run f))))))
  /\ (forall f b,
        batch = Some b -> In item b -> isReported item = true ->
        errors (trace (snd (run f))) = [] ->
        recorded (loaded f) item = Ok true
        \/ exists j, In (j, true) (attempts (trace (snd (run f))))
                     /\ entryOf j = entryOf item).
Proof.
  assert (Hrun : forall f ok,
             In (item, ok) (attempts (trace (snd (run f)))) ->
             isReported item = true).
  { intros f ok. rewrite run_attempts_eq. intros Hin.
    destruct (run_attempts_fresh f) as [_ Hfresh].
    now destruct (Hfresh item ok Hin) as (_ & Hr & _). }
  split; [apply isReported_iff |].
  split; [| split; [exact Hrun | split; [| split]]].
  - intros s items Hin. split.
    + eapply subseq_In; [apply queue_subseq | eassumption].
    + eapply queue_reported; eassumption.
  - intros He Hr f ok Hin. apply Hrun in Hin.
    apply isReported_iff in Hin. tauto.
  - intros f b Hb Hin Hr Hnew Hacc Hok. rewrite run_attempts_eq.
    now apply (run_sends f b item).
  - intros f b Hb Hin Hr Herr. rewrite run_attempts_eq.
    apply errors_nil_thrown in Herr. now apply (run_delivers f b item).
Qed.


Lemma same_date_refl (x : Item.t) : same_date x x = true.
Proof.
  unfold same_date.
  destruct (dateValue (Item.date x)); [apply Z.eqb_refl | reflexivity].
Qed.

Lemma same_date_le (a b : Item.t) :
  valid_date a -> same_date a b = true -> date_le a b /\ date_le b a.
Proof.
  unfold valid_date, same_date, date_le.
  destruct (dateValue (Item.date a)), (dateValue (Item.date b));
    try congruence.
  intros _ H. apply Z.eqb_eq in H. lia.
Qed.

Lemma date_le_antisym (a b : Item.t) :
  date_le a b -> date_le b a -> forall z, same_date z a = same_date z b.
Proof.
  unfold same_date, date_le. intros Hab Hba z.
  destruct (dateValue (Item.date a)) as [ta |],
    (dateValue (Item.date b)) as [tb |]; try tauto.
  assert (ta = tb) by lia. now subst.
Qed.

(** Sortedness and stability leave no choice: whatever algorithm the
    engine uses, a stable sort of a batch with valid dates gives the list
    that [Array_sort] computes. *)
Lemma sorted_stable_unique (l1 : list Item.t) : forall l2 : list Item.t,
  Forall valid_date l1 -> Forall valid_date l2 ->
  StronglySorted date_le l1 -> StronglySorted date_le l2 ->
  (forall x, filter (same_date x) l1 = filter (same_date x) l2) ->
  l1 = l2.
Proof.
  induction l1 as [| x l1 IH]; intros l2 Hv1 Hv2 Hs1 Hs2 Hf.
  - destruct l2 as [| y l2]; [reflexivity |].
    specialize (Hf y). simpl in Hf. rewrite same_date_refl in Hf.
    discriminate.
  - destruct l2 as [| y l2].
    + specialize (Hf x). simpl in Hf. rewrite same_date_refl in Hf.
      discriminate.
    + inversion Hv1 as [| ? ? Hx Hv1']; subst.
      inversion Hv2 as [| ? ? Hy Hv2']; subst.
      inversion Hs1 as [| ? ? Hs1' Hall1]; subst.
      inversion Hs2 as [| ? ? Hs2' Hall2]; subst.
      rewrite Forall_forall in Hall1, Hall2.
      assert (Hxy : date_le x y).
      { pose proof (Hf y) as Hfy. simpl in Hfy.
        rewrite (same_date_refl y) in Hfy.
        destruct (same_date y x) eqn:Hyx.
        - now apply (same_date_le y x).
        - apply Hall1.
          assert (Hin : In y (filter (same_date y) l1))
            by (rewrite Hfy; now left).
          apply filter_In in Hin. tauto. }
      assert (Hyx : date_le y x).
      { pose proof (Hf x) as Hfx. simpl in Hfx.
        rewrite (same_date_refl x) in Hfx.
        destruct (same_date x y) eqn:Hxy'.
        - now apply (same_date_le x y).
        - apply Hall2.
          assert (Hin : In x (filter (same_date x) l2))
            by (rewrite <- Hfx; now left).
          apply filter_In in Hin. tauto. }
      pose proof (date_le_antisym x y Hxy Hyx) as Hsame.
      assert (Heq : x = y).
      { pose proof (Hf x) as Hfx. simpl in Hfx.
        rewrite <- Hsame, same_date_refl in Hfx. now injection Hfx. }
      subst y. f_equal. apply IH; try assumption.
      intros z. specialize (Hf z). simpl in Hf.
      destruct (same_date z x); [now injection Hf | assumption].
Qed.

Lemma Array_sort_unique (b l' : list Item.t) :
  Forall valid_date b ->
  Permutation l' b ->
  StronglySorted date_le l' ->
  (forall x, filter (same_date x) l' = filter (same_date x) b) ->
  l' = Array_sort compareDates b.
Proof.
  intros Hv Hperm Hs Hf.
  apply sorted_stable_unique.
  - rewrite Forall_forall in *. intros z Hz. apply Hv.
    eapply Permutation_in; eassumption.
  - rewrite Forall_forall in *. intros z Hz. apply Hv.
    eapply Permutation_in; [apply Array_sort_Permutation | eassumption].
  - assumption.
  - now apply Array_sort_sorted.
  - intros x. rewrite Hf. symmetry. apply Array_sort_filter.
    intros a c. apply same_date_SortCompare.
Qed.




Lemma firstn_skipn_disjoint {A : Type} (l : list A) : forall k x,
  NoDup l -> In x (firstn k l) -> In x (skipn k l) -> False.
Proof.
  induction l as [| y l IH]; intros k x Hnd H1 H2.
  - destruct k; destruct H1.
  - destruct k as [| k]; simpl in *; [destruct H1 |].
    inversion Hnd as [| ? ? Hy Hnd']; subst.
    destruct H1 as [-> | H1].
    + apply Hy. eapply subseq_In; [| exact H2].
      rewrite <- (firstn_skipn k l) at 2. clear.
      induction (firstn k l); simpl; [apply subseq_refl | now constructor].
    + eapply IH; eassumption.
Qed.

Lemma NoDup_map_inv {A B : Type} (g : A -> B) (l : list A) :
  NoDup (map g l) -> NoDup l.
Proof.
  induction l as [| x l IH]; simpl; intros H; [constructor |].
  inversion H as [| ? ? Hx Hnd]; subst. constructor; [| now apply IH].
  intros Hin. apply Hx. now apply in_map.
Qed.


(** C6, as the script has it.  Nothing in the loop looks at whether an
    item is well formed, and nothing is skipped for being malformed.  An
    item without a symbol is rendered with ["undefined"] in its place, its
    record has no symbol, and it goes through the same turn as any other
    item: it is sent when it is reported, not recorded, and the builder
    accepts its embed.  An item whose embed the builder refuses is not
    skipped either: the exception ends the loop.  So when nothing fails,
    every reported item of the batch, with or without a symbol, ends up
    recorded and is sent in this run unless its (symbol, date) was
    recorded before; and when the builder refuses an item of the queue,
    the items before it are sent and no item from it on is. *)
Theorem no_item_level_validation (f : file) :
  let m' := snd (run f) in
  let att := attempts (trace m') in
  (forall item, Item.symbol item = Undefined ->
     title (buildEmbed item) = (statusEmoji item ++ " undefined")%string
     /\ entryOf item = record Undefined (Item.date item)
     /\ forall m, isReported item = true ->
                  recorded (state m) item = Ok false ->
                  accepted item = true ->
                  attempts (trace (snd (loop_body item m)))
                  = attempts (trace m)
                    ++ [(item, webhook_send w (sent m) (buildPayload item))])
  /\ (forall item m, isReported item = true ->
                     recorded (state m) item = Ok false ->
                     accepted item = false ->
                     loop_body item m = (Throw ValidationError, m))
  /\ (forall b,
        batch = Some b ->
        intact (loaded f) = true ->
        (forall j, In j b -> isReported j = true -> accepted j = true) ->
        (forall n p, webhook_send w n p = true) ->
        errors (trace m') = []
        /\ forall item, In item b -> isReported item = true ->
             recorded (state m') item = Ok true
             /\ (recorded (loaded f) item = Ok false ->
                 exists j, In (j, true) att /\ entryOf j = entryOf item))
  /\ (forall b k refused,
        batch = Some b ->
        Forall valid_date b ->
        let q := run_queue f b in
        nth_error q k = Some refused ->
        (forall j item, j < k -> nth_error q j = Some item ->
                        accepted item = true
                        /\ webhook_send w j (buildPayload item) = true) ->
        accepted refused = false ->
        att = map succeeded (firstn k q)
        /\ errors (trace m') = [ValidationError]
        /\ state m' = push_all (loaded f) (map entryOf (firstn k q))
        /\ forall item ok, In item (skipn k q) -> ~ In (item, ok) att).
Proof.
  cbv zeta. rewrite run_attempts_eq, run_state, run_errors_eq.
  split; [| split; [| split]].
  - intros item Hsym. split; [| split].
    + unfold buildEmbed. simpl. now rewrite Hsym.
    + unfold entryOf. now rewrite Hsym.
    + intros m Hr Hnew Hacc.
      destruct (loop_body_step item m) as [Ha _].
      rewrite Ha. unfold passes. now rewrite Hr, Hnew, Hacc.
  - intros item m Hr Hnew Hacc. now rewrite loop_body_eq, Hr, Hnew, Hacc.
  - intros b Hb Hs Hacc Hok.
    destruct (run_goes_through f b Hb Hs Hacc Hok) as [Hth Hatt].
    rewrite Hth. split; [reflexivity |].
    intros item Hin Hr.
    pose proof (run_delivers f b item Hb Hth Hin Hr) as Hd.
    split.
    + rewrite recorded_final.
      destruct (recorded (loaded f) item) as [[|] | e] eqn:Hl.
      * reflexivity.
      * destruct Hd as [Hd | (j & Hj & Hk)]; [discriminate |].
        f_equal. apply existsb_exists. exists j.
        split; [now apply delivered_In | now apply same_key_eq].
      * destruct Hd as [Hd | (j & Hj & Hk)]; [discriminate |].
        destruct (run_attempts_fresh f) as [_ Hfresh].
        destruct (intact_recorded (loaded f) item Hs) as [x Hx]. congruence.
    + intros Hnew. destruct Hd as [Hd | Hd]; [congruence | exact Hd].
  - intros b k refused Hb _ Hk Hbefore Href.
    set (q := run_queue f b) in *.
    destruct (deliver_refused_at q 0 k refused Hk Hbefore Href) as [Hd Hst].
    assert (Hatt : run_attempts f = map succeeded (firstn k q)).
    { unfold run_attempts. now rewrite Hb. }
    split; [exact Hatt |]. split; [| split].
    + rewrite (thrown_batch f b Hb). unfold loop_outcome.
      fold (run_queue f b). fold q. now rewrite Hst.
    + unfold final_state. now rewrite Hatt, delivered_succeeded.
    + intros item ok Hin Hsent. rewrite Hatt in Hsent.
      apply in_map_iff in Hsent. destruct Hsent as (i & [= -> _] & Hi).
      destruct (queue_fresh (Array_sort compareDates b) (loaded f))
        as [Hnd _].
      apply NoDup_map_inv in Hnd.
      exact (firstn_skipn_disjoint _ k item Hnd Hi Hin).
Qed.


(** [toFixed] rounds to the nearest multiple of 10^-f, upwards on a tie:
    with [x = m / 2^d], the integer [n] it prints satisfies
    [n - 1/2 <= x * 10^f < n + 1/2]. *)
Lemma nearest_scaled_spec (m : positive) (d : Z) (f : nat) :
  (0 < d)%Z ->
  let n := nearest_scaled m (- d) f in
  let scaled := (Z.pos m * 10 ^ Z.of_nat f)%Z in
  (2 * n * 2 ^ d - 2 ^ d <= 2 * scaled < 2 * n * 2 ^ d + 2 ^ d)%Z.
Proof.
  intros Hd n scaled. subst n. unfold nearest_scaled. fold scaled.
  destruct (Z.leb_spec 0 (- d)); [lia |].
  rewrite Z.opp_involutive.
  replace (2 ^ (d + 1))%Z with (2 * 2 ^ d)%Z
    by (rewrite Z.pow_add_r by lia; lia).
  assert (Hpos : (0 < 2 * 2 ^ d)%Z).
  { assert (0 < 2 ^ d)%Z by (apply Z.pow_pos_nonneg; lia). lia. }
  pose proof (Z.div_mod (2 * scaled + 2 ^ d) (2 * 2 ^ d)) as Hdm.
  pose proof (Z.mod_pos_bound (2 * scaled + 2 ^ d) (2 * 2 ^ d) Hpos) as Hb.
  nia.
Qed.



(* ================================================================= *)
(** * The trace of a run, effect by effect *)

Definition is_send (e : Effect) : Prop :=
  match e with WebhookSend _ _ _ => True | _ => False end.

(** Scanning a trace for two sends that no pause separates: [pending]
    tells whether a send has been seen since the last pause. *)
Fixpoint paced (pending : bool) (tr : list Effect) : bool :=
  match tr with
  | [] => true
  | WebhookSend _ _ _ :: tr' => negb pending && paced true tr'
  | Sleep ms :: tr' =>
      paced (pending && negb (ms =? SLEEP_BETWEEN_SENDS)%Z) tr'
  | _ :: tr' => paced pending tr'
  end.

Lemma paced_no_send (tr : list Effect) :
  attempts tr = [] -> forall pending, paced pending tr = true.
Proof.
  induction tr as [| e tr IH]; simpl; intros Hno pending; [reflexivity |].
  destruct e; try discriminate; now apply IH.
Qed.

(** A paced trace has a full pause between any two sends. *)
Lemma paced_between (t2 : list Effect) : forall b t3,
  is_send b ->
  paced true (t2 ++ b :: t3) = true ->
  In (Sleep SLEEP_BETWEEN_SENDS) t2.
Proof.
  induction t2 as [| e t2 IH]; intros b t3 Hb Hp; simpl in Hp.
  - destruct b; simpl in Hb; try contradiction. discriminate.
  - destruct e; simpl in Hp; try (right; eapply IH; eassumption).
    + discriminate.
    + destruct (Z.eqb_spec ms SLEEP_BETWEEN_SENDS) as [-> | Hne].
      * now left.
      * right. eapply IH; eassumption.
Qed.

Lemma paced_sound (t1 : list Effect) : forall pending a t2 b t3,
  is_send a -> is_send b ->
  paced pending (t1 ++ a :: t2 ++ b :: t3) = true ->
  In (Sleep SLEEP_BETWEEN_SENDS) t2.
Proof.
  induction t1 as [| e t1 IH]; intros pending a t2 b t3 Ha Hb Hp.
  - destruct a; simpl in Ha; try contradiction. simpl in Hp.
    apply andb_true_iff in Hp. destruct Hp as [_ Hp].
    eapply paced_between; eassumption.
  - simpl in Hp. destruct e; simpl in Hp;
      try (eapply (IH _ a t2 b t3 Ha Hb); eassumption).
    apply andb_true_iff in Hp. destruct Hp as [_ Hp].
    eapply (IH _ a t2 b t3 Ha Hb); eassumption.
Qed.

Lemma paced_deliver (q : list Item.t) : forall n rest,
  attempts rest = [] ->
  paced false (flat_map attempt_trace (deliver n q) ++ rest) = true.
Proof.
  induction q as [| item q IH]; intros n rest Hrest; simpl.
  - now apply paced_no_send.
  - destruct (accepted item); [| now apply paced_no_send].
    destruct (webhook_send w n (buildPayload item)); simpl.
    + rewrite ?Z.eqb_refl. simpl. now apply IH.
    + now apply paced_no_send.
Qed.

(** X1.  The webhook is never called twice without the pause in between:
    between any two calls of [webhook.send] in a run lies a sleep of
    [SLEEP_BETWEEN_SENDS] milliseconds, and the run sleeps exactly once
    per send that succeeded, always for that long. *)
Theorem sends_are_paced (f : file) :
  let tr := trace (snd (run f)) in
  (forall t1 a t2 b t3,
      is_send a -> is_send b ->
      tr = t1 ++ a :: t2 ++ b :: t3 ->
      In (Sleep SLEEP_BETWEEN_SENDS) t2)
  /\ sleeps tr
     = map (fun _ => SLEEP_BETWEEN_SENDS) (delivered (attempts tr)).
Proof.
  cbv zeta. rewrite run_attempts_eq. split.
  - intros t1 a t2 b t3 Ha Hb Htr.
    apply (paced_sound t1 false a t2 b t3 Ha Hb).
    rewrite <- Htr, run_trace_eq. simpl.
    assert (Hrest : attempts (caught f
                              ++ Console SavingState
                                 :: closing (final_state f)) = []).
    { rewrite attempts_app. simpl.
      destruct (caught_silent f) as (-> & _).
      now destruct (closing_silent (final_state f)) as (-> & _). }
    remember (caught f ++ Console SavingState :: closing (final_state f))
      as rest eqn:Hr.
    clear Hr. unfold run_attempts. destruct batch as [b0 |].
    + now apply paced_deliver.
    + simpl. now apply paced_no_send.
  - rewrite run_trace_eq. simpl. rewrite !sleeps_app. simpl.
    destruct (loop_trace_quiet (run_attempts f)) as (_ & _ & _ & -> & _).
    destruct (caught_quiet f) as (_ & _ & -> & _).
    destruct (closing_quiet (final_state f)) as (_ & _ & -> & _).
    now rewrite !app_nil_r.
Qed.

(** A trace with a single write splits around it in one way only. *)
Lemma split_at_write (t1 : list Effect) : forall a d ok d' ok' t2 b,
  writes a = [] -> writes b = [] ->
  t1 ++ FsWriteFile d ok :: t2 = a ++ FsWriteFile d' ok' :: b ->
  t1 = a /\ t2 = b.
Proof.
  induction t1 as [| e t1 IH]; intros a d ok d' ok' t2 b Ha Hb Heq.
  - destruct a as [| x a]; simpl in Heq.
    + injection Heq as _ _ ->. now split.
    + injection Heq as <- _. discriminate Ha.
  - destruct a as [| x a]; simpl in Heq.
    + injection Heq as -> Heq. rewrite <- Heq, writes_app in Hb.
      simpl in Hb. destruct (writes t1); discriminate.
    + injection Heq as <- Heq.
      assert (Ha' : writes a = []) by (destruct e; simpl in Ha; congruence).
      destruct (IH a d ok d' ok' t2 b Ha' Hb Heq) as [-> ->]. now split.
Qed.

Lemma closing_split (s : State) :
  exists rest,
    closing s = FsWriteFile (StateJson s) write_ok :: rest
    /\ writes rest = [] /\ attempts rest = [].
Proof.
  unfold closing, write_ok. destruct (fs_writeFile w).
  - now exists [].
  - eexists. split; [reflexivity |].
    destruct (get "length" s); simpl; auto.
Qed.

(** X2.  A run reads the state file first and fetches the calendar second,
    each exactly once; every call of [webhook.send] comes after both and
    before the one write of the state file, and nothing is sent once the
    state has been written. *)
Theorem effects_in_order (f : file) :
  let tr := trace (snd (run f)) in
  (exists rest, tr = FsReadFile :: HttpGet :: rest)
  /\ reads tr = 1
  /\ requests tr = 1
  /\ (forall t1 d ok t2,
        tr = t1 ++ FsWriteFile d ok :: t2 ->
        attempts t1 = attempts tr /\ attempts t2 = []
        /\ d = JSON_stringify (state (snd (run f)))).
Proof.
  cbv zeta. rewrite run_state.
  destruct (loop_trace_quiet (run_attempts f)) as (Hr & Hq & _).
  destruct (loop_trace (run_attempts f)) as (Ha & _ & Hw & _).
  destruct (caught_quiet f) as (Hcr & Hcq & _).
  destruct (caught_silent f) as (Hca & _ & Hcw & _).
  destruct (closing_quiet (final_state f)) as (Hzr & Hzq & _).
  split; [rewrite run_trace_eq; eauto |].
  split; [rewrite run_trace_eq; simpl;
          rewrite !reads_app, Hr, Hcr; simpl; now rewrite Hzr |].
  split; [rewrite run_trace_eq; simpl;
          rewrite !requests_app, Hq, Hcq; simpl; now rewrite Hzq |].
  intros t1 d ok t2 Htr. rewrite run_attempts_eq.
  rewrite run_trace_eq in Htr.
  set (pre := FsReadFile :: HttpGet
              :: flat_map attempt_trace (run_attempts f)
                 ++ caught f ++ [Console SavingState]).
  assert (Hpre : writes pre = []).
  { unfold pre. simpl. rewrite !writes_app, Hw, Hcw. reflexivity. }
  assert (Hatt : attempts pre = run_attempts f).
  { unfold pre. simpl. rewrite !attempts_app, Hca, Ha. simpl.
    now rewrite !app_nil_r. }
  destruct (closing_split (final_state f)) as (rest & Hclose & Hrw & Hra).
  rewrite Hclose in Htr.
  assert (Heq : t1 ++ FsWriteFile d ok :: t2
                = pre ++ FsWriteFile (StateJson (final_state f)) write_ok
                         :: rest).
  { rewrite <- Htr. unfold pre. simpl. now rewrite <- !app_assoc. }
  destruct (split_at_write t1 pre d ok (StateJson (final_state f)) write_ok
              t2 rest Hpre Hrw Heq) as [-> ->].
  split; [assumption |]. split; [assumption |].
  apply app_inv_head in Heq. now injection Heq.
Qed.

Lemma stopped_ValidationError (q : list Item.t) : forall n,
  stopped n q = Some ValidationError ->
  exists item, In item q /\ accepted item = false.
Proof.
  induction q as [| x q IH]; intros n; simpl; [discriminate |].
  destruct (accepted x) eqn:Hx.
  - destruct (webhook_send w n (buildPayload x)); [| discriminate].
    intros H. destruct (IH _ H) as (item & Hin & Hacc).
    exists item. split; [now right | assumption].
  - intros _. exists x. split; [now left | assumption].
Qed.

(** X3.  What goes wrong inside the [try] block is logged, once.  The
    [catch] block logs at most one error per run: the one [axios.get]
    threw (no send is attempted then), a [TypeError] when the response has
    no data, and, when a batch was fetched, the rejection of the send that
    stopped the loop, the error of the builder that refused the embed of
    a reported item, or the [TypeError] of a lookup in a state that is not
    an array of objects.  A run logs no error exactly when a batch was
    fetched and every reported item of it is on record when the run
    ends. *)
Theorem errors_are_logged_once (f : file) :
  let m' := snd (run f) in
  let tr := trace m' in
  List.length (errors tr) <= 1
  /\ (forall e, axios_get w = Throw e ->
                errors tr = [e] /\ attempts tr = [])
  /\ (axios_get w = Ok Undefined \/ axios_get w = Ok Null ->
      errors tr = [TypeError] /\ attempts tr = [])
  /\ (forall item, In (item, false) (attempts tr) ->
                   errors tr = [DiscordError])
  /\ (forall b e,
        batch = Some b -> In e (errors tr) ->
        (e = DiscordError /\ exists item, In (item, false) (attempts tr))
        \/ (e = ValidationError
            /\ exists item, In item b /\ isReported item = true
                            /\ accepted item = false)
        \/ (e = TypeError /\ intact (loaded f) = false))
  /\ (errors tr = []
      <-> exists b,
            batch = Some b
            /\ forall item, In item b -> isReported item = true ->
                            recorded (state m') item = Ok true).
Proof.
  cbv zeta. rewrite run_errors_eq, run_attempts_eq, run_state.
  split; [destruct (thrown f); simpl; lia |].
  split; [| split; [| split; [| split]]].
  - intros e He. unfold thrown, run_attempts, batch. now rewrite He.
  - intros [He | He]; unfold thrown, run_attempts, batch; now rewrite He.
  - intros item Hin.
    unfold run_attempts in Hin. destruct batch as [b |] eqn:Hb; [| destruct Hin].
    assert (Hst : stopped 0 (run_queue f b) = Some DiscordError).
    { apply stopped_DiscordError. now exists item. }
    rewrite (thrown_batch f b Hb). unfold loop_outcome.
    fold (run_queue f b). now rewrite Hst.
  - intros b e Hb. rewrite (thrown_batch f b Hb). unfold loop_outcome.
    fold (run_queue f b). unfold run_attempts. rewrite Hb.
    destruct (stopped 0 (run_queue f b)) as [e' |] eqn:Hst.
    + intros [<- | []].
      destruct (stopped_cases _ _ _ Hst) as [-> | ->].
      * left. split; [reflexivity |]. now apply stopped_DiscordError.
      * right. left. split; [reflexivity |].
        destruct (stopped_ValidationError _ _ Hst) as (item & Hin & Hacc).
        exists item. split; [| split; [| assumption]].
        -- apply In_Array_sort.
           eapply subseq_In; [apply queue_subseq | exact Hin].
        -- eapply queue_reported; exact Hin.
    + destruct (faulty (loaded f) _) eqn:Hf; [| intros []].
      intros [<- | []]. right. right. split; [reflexivity |].
      destruct (intact (loaded f)) eqn:Hi; [| reflexivity].
      rewrite (intact_not_faulty _ _ Hi) in Hf. discriminate.
  - split.
    + intros Hth.
      assert (Hnone : thrown f = None) by (destruct (thrown f); congruence).
      destruct (proj1 (thrown_None f) Hnone) as (b & Hb & _).
      exists b. split; [assumption |]. intros item Hin Hr.
      rewrite recorded_final.
      destruct (run_delivers f b item Hb Hnone Hin Hr) as [-> | (j & Hj & Hk)];
        [reflexivity |].
      destruct (run_attempts_fresh f) as [_ Hfresh].
      destruct (Hfresh j true Hj) as (Hnew & _).
      destruct (intact_recorded (loaded f) item
                  (recorded_false_intact _ _ Hnew)) as [[|] ->];
        [reflexivity |].
      f_equal. apply existsb_exists. exists j.
      split; [now apply delivered_In | now apply same_key_eq].
    + intros (b & Hb & Hall).
      rewrite (thrown_batch f b Hb). unfold loop_outcome.
      fold (run_queue f b).
      destruct (queue_fresh (Array_sort compareDates b) (loaded f))
        as [Hnd Hfresh].
      fold (run_queue f b) in Hnd, Hfresh.
      destruct (stopped 0 (run_queue f b)) as [e |] eqn:Hst.
      * exfalso.
        destruct (stopped_leaves _ _ _ Hst Hnd) as (r & Hr & Hleft).
        assert (Hrec : recorded (final_state f) r = Ok true).
        { apply Hall.
          - apply In_Array_sort.
            eapply subseq_In; [apply queue_subseq | exact Hr].
          - eapply queue_reported; exact Hr. }
        rewrite recorded_final, (Hfresh r Hr) in Hrec.
        unfold run_attempts in Hrec. rewrite Hb in Hrec.
        injection Hrec as Hrec. apply existsb_exists in Hrec.
        destruct Hrec as (j & Hj & Hk). rewrite (Hleft j Hj) in Hk.
        discriminate.
      * destruct (faulty (loaded f) _) eqn:Hf; [| reflexivity].
        exfalso.
        destruct (faulty_throws _ _ Hf) as (x & Hx & Hrx & Htx).
        apply (proj1 (In_Array_sort b x)) in Hx.
        specialize (Hall x Hx Hrx). rewrite recorded_final, Htx in Hall.
        discriminate.
Qed.

(** X4.  A run only ever sends what it fetched.  Every item handed to
    [webhook.send] is a reported item of the fetched batch whose (symbol,
    date) was not in the loaded state; there are at most as many calls as
    the batch has reported items; and since the first rejection stops the
    loop, all calls but possibly the last one succeeded. *)
Theorem sends_come_from_the_batch (f : file) :
  let att := attempts (trace (snd (run f))) in
  (forall item ok, In (item, ok) att ->
     exists b, batch = Some b /\ In item b /\ isReported item = true
               /\ recorded (loaded f) item = Ok false
               /\ ~ In (entryOf item) (elements (loaded f)))
  /\ (forall b, batch = Some b ->
        List.length att <= List.length (filter isReported b))
  /\ (att = map succeeded (delivered att)
      \/ exists item, att = map succeeded (delivered att) ++ [(item, false)])
  /\ payloads (trace (snd (run f))) = map buildPayload (map fst att).
Proof.
  cbv zeta. rewrite run_payloads_eq, run_attempts_eq.
  split; [| split; [| split; [| reflexivity]]].
  - intros item ok Hin.
    destruct (run_attempts_fresh f) as [_ Hfresh].
    destruct (Hfresh item ok Hin) as (Hnew & Hr & _ & b & Hb & Hinb).
    exists b. split; [assumption |]. split; [assumption |].
    split; [assumption |]. split; [assumption |].
    now apply recorded_false_not_In.
  - intros b Hb. unfold run_attempts. rewrite Hb.
    rewrite <- (length_map fst).
    etransitivity; [apply subseq_length, attempted_subseq |].
    etransitivity; [apply queue_length |].
    rewrite (filter_Permutation_length isReported _ b
               (Array_sort_Permutation compareDates b)). lia.
  - unfold run_attempts. destruct batch as [b |]; [| now left].
    apply deliver_shape.
Qed.




(** The label of the report hour: the three codes of the calendar, in
    lower case, have a label of their own; anything else is unknown. *)
Lemma reportHour_Unknown (h : nullable string) :
  reportHour h = "Unknown"%string
  <-> h <> Val "bmo"%string /\ h <> Val "amc"%string
      /\ h <> Val "dmh"%string.
Proof.
  unfold reportHour.
  destruct h as [| | s]; simpl;
    try (split; [intros _; repeat split; discriminate | reflexivity]).
  destruct (String.eqb_spec s "bmo") as [-> | Hb];
    [split; [discriminate | intros (H & _); now elim H] |].
  destruct (String.eqb_spec s "amc") as [-> | Ha];
    [split; [discriminate | intros (_ & H & _); now elim H] |].
  destruct (String.eqb_spec s "dmh") as [-> | Hd];
    [split; [discriminate | intros (_ & _ & H); now elim H] |].
  split; [| reflexivity]. intros _.
  repeat split; intros [= ->]; congruence.
Qed.

(** X12.  Every message a run hands to the webhook is built from one item it
    attempted, and has the same frame: mentions are switched off, there is
    exactly one embed, and the embed carries the same seven inline fields
    in the same order, titled with the glyph and the symbol.  The report
    hour reads "Unknown" unless the item's hour is one of the three
    codes. *)
Theorem every_message_is_one_quiet_embed (f : file) (p : Payload) :
  In p (payloads (trace (snd (run f)))) ->
  exists item e,
    (exists ok, In (item, ok) (attempts (trace (snd (run f)))))
    /\ p = buildPayload item
    /\ allowed_mentions_parse p = []
    /\ embeds p = [e]
    /\ title e
       = (statusEmoji item ++ " " ++ ToString_str (Item.symbol item))%string
    /\ map name (fields e)
       = [ "Earnings Date"; "Report Hour"; "Quarter"; "EPS";
           "EPS Estimate"; "Revenue"; "Revenue Estimate" ]%string
    /\ Forall (fun fld => inline fld = true) (fields e)
    /\ (In {| name := "Report Hour"; value := "Unknown"; inline := true |}
           (fields e)
        <-> Item.hour item <> Val "bmo"%string
            /\ Item.hour item <> Val "amc"%string
            /\ Item.hour item <> Val "dmh"%string).
Proof.
  rewrite run_payloads_eq, run_attempts_eq. intros Hin.
  apply in_map_iff in Hin. destruct Hin as (item & <- & Hin).
  apply in_map_iff in Hin. destruct Hin as ([item' ok] & Hfst & Hin).
  simpl in Hfst. subst item'.
  exists item, (buildEmbed item).
  split; [now exists ok |].
  split; [reflexivity |]. split; [reflexivity |]. split; [reflexivity |].
  split; [reflexivity |]. split; [reflexivity |].
  split; [repeat constructor |].
  rewrite <- reportHour_Unknown. unfold buildEmbed. cbn [fields]. split.
  - intros [H | [H | [H | [H | [H | [H | [H | []]]]]]]];
      try discriminate H.
    now injection H.
  - intros ->. right. left. reflexivity.
Qed.


End Run.

(* ================================================================= *)
(** * Two runs *)


(* ================================================================= *)
(** * The surprise and its glyph *)

Section Surprise.

Local Open Scope Z_scope.

(** ** Binary64 subtraction keeps the sign of the exact difference *)

Lemma digits2_pos_bounds (m : positive) :
  2 ^ (Z.pos (digits2_pos m) - 1) <= Z.pos m < 2 ^ Z.pos (digits2_pos m).
Proof.
  induction m as [p IH | p IH |]; simpl digits2_pos.
  - rewrite Pos2Z.inj_succ.
    replace (Z.succ (Z.pos (digits2_pos p)) - 1)
      with (Z.succ (Z.pos (digits2_pos p) - 1)) by lia.
    rewrite !Z.pow_succ_r by lia. lia.
  - rewrite Pos2Z.inj_succ.
    replace (Z.succ (Z.pos (digits2_pos p)) - 1)
      with (Z.succ (Z.pos (digits2_pos p) - 1)) by lia.
    rewrite !Z.pow_succ_r by lia. lia.
  - simpl. lia.
Qed.

Lemma shr_1_m (mrs : shr_record) :
  0 <= shr_m mrs -> shr_m (shr_1 mrs) = shr_m mrs / 2.
Proof.
  destruct mrs as [m r s]. cbn [shr_m]. intros Hm.
  destruct m as [| [p | p |] | p]; cbn [shr_1 shr_m]; try lia.
  - reflexivity.
  - apply Z.div_unique with 1; lia.
  - apply Z.div_unique with 0; lia.
  - reflexivity.
Qed.

Lemma iter_pos_shr_m (p : positive) : forall mrs,
  0 <= shr_m mrs ->
  shr_m (iter_pos shr_1 p mrs) = shr_m mrs / 2 ^ Z.pos p.
Proof.
  assert (Hnn : forall mrs, 0 <= shr_m mrs -> 0 <= shr_m (shr_1 mrs)).
  { intros mrs H. rewrite shr_1_m by assumption. apply Z.div_pos; lia. }
  induction p as [p IH | p IH |]; intros mrs Hm; simpl iter_pos.
  - assert (H1 := Hnn mrs Hm).
    assert (H2 : 0 <= shr_m (iter_pos shr_1 p (shr_1 mrs))).
    { rewrite IH by assumption. apply Z.div_pos; [assumption |].
      apply Z.pow_pos_nonneg; lia. }
    assert (Hpow : 2 ^ Z.pos p~1 = 2 * 2 ^ Z.pos p * 2 ^ Z.pos p).
    { rewrite (Pos2Z.inj_xI p).
      replace (2 * Z.pos p + 1) with (1 + Z.pos p + Z.pos p) by lia.
      rewrite !Z.pow_add_r by lia. reflexivity. }
    assert (Hp : 0 < 2 ^ Z.pos p) by (apply Z.pow_pos_nonneg; lia).
    rewrite IH, IH, shr_1_m, Hpow by assumption.
    rewrite !Z.div_div by lia. f_equal. lia.
  - assert (H2 : 0 <= shr_m (iter_pos shr_1 p mrs)).
    { rewrite IH by assumption. apply Z.div_pos; [assumption |].
      apply Z.pow_pos_nonneg; lia. }
    assert (Hpow : 2 ^ Z.pos p~0 = 2 ^ Z.pos p * 2 ^ Z.pos p).
    { rewrite (Pos2Z.inj_xO p).
      replace (2 * Z.pos p) with (Z.pos p + Z.pos p) by lia.
      rewrite !Z.pow_add_r by lia. reflexivity. }
    assert (Hp : 0 < 2 ^ Z.pos p) by (apply Z.pow_pos_nonneg; lia).
    rewrite IH, IH, Hpow by assumption.
    rewrite !Z.div_div by lia. f_equal.
  - rewrite shr_1_m by assumption. reflexivity.
Qed.

(** The mantissa of a record built from a location. *)
Lemma shr_m_of_loc (m : Z) (l : location) :
  shr_m (shr_record_of_loc m l) = m.
Proof. destruct l as [| []]; reflexivity. Qed.

(** Shifting a positive mantissa down to its format exponent leaves it
    positive. *)
Lemma shr_fexp_pos (m : positive) (e : Z) (l : location) :
  emin prec emax <= e ->
  0 < shr_m (fst (shr_fexp prec emax (Z.pos m) e l))
  /\ emin prec emax <= snd (shr_fexp prec emax (Z.pos m) e l).
Proof.
  intros He. unfold shr_fexp, shr. cbn [Zdigits2].
  pose proof (digits2_pos_bounds m) as [Hlo Hhi].
  set (d := Z.pos (digits2_pos m)) in *.
  destruct (fexp prec emax (d + e) - e) as [| n | n] eqn:Hn;
    cbn [fst snd]; rewrite ?shr_m_of_loc; try (split; lia).
  assert (Hle : Z.pos n <= d - 1).
  { unfold fexp, emin, prec, emax in *. lia. }
  rewrite iter_pos_shr_m by (rewrite shr_m_of_loc; lia).
  rewrite shr_m_of_loc. split; [| lia].
  apply Z.div_str_pos. split; [apply Z.pow_pos_nonneg; lia |].
  etransitivity; [| exact Hlo].
  apply Z.pow_le_mono_r; lia.
Qed.

(** [r] is a non-zero number of sign [sx]. *)
Definition signed (sx : bool) (r : spec_float) : Prop :=
  match r with
  | S754_finite s _ _ | S754_infinity s => s = sx
  | _ => False
  end.

Lemma round_nearest_even_pos (m : Z) (l : location) :
  0 < m -> 0 < round_nearest_even m l.
Proof.
  intros Hm. destruct l as [| [| |]]; simpl; try lia.
  destruct (Z.even m); lia.
Qed.

Lemma binary_round_aux_signed (sx : bool) (m : positive) (e : Z) (l : location) :
  emin prec emax <= e ->
  signed sx (binary_round_aux prec emax sx (Z.pos m) e l).
Proof.
  intros He. unfold binary_round_aux.
  destruct (shr_fexp_pos m e l He) as [Hm1 He1].
  destruct (shr_fexp prec emax (Z.pos m) e l) as [mrs' e'].
  cbn [fst snd] in *.
  pose proof (round_nearest_even_pos (shr_m mrs') (loc_of_shr_record mrs') Hm1)
    as Hr.
  destruct (round_nearest_even (shr_m mrs') (loc_of_shr_record mrs'))
    as [| m2 | m2]; try lia.
  destruct (shr_fexp_pos m2 e' loc_Exact He1) as [Hm2 _].
  destruct (shr_fexp prec emax (Z.pos m2) e' loc_Exact) as [mrs'' e''].
  cbn [fst snd] in *.
  destruct (shr_m mrs'') as [| m3 | m3]; try lia.
  destruct (e'' <=? emax - prec); reflexivity.
Qed.

Lemma binary_round_signed (sx : bool) (m : positive) (e : Z) :
  emin prec emax <= e ->
  signed sx (binary_round prec emax sx m e).
Proof.
  intros He. unfold binary_round, shl_align.
  destruct (fexp prec emax (Z.pos (digits2_pos m) + e) - e) as [| d | d] eqn:Hd;
    apply binary_round_aux_signed; try assumption.
  unfold fexp, emin, prec, emax in *. lia.
Qed.

Lemma binary_normalize_signed (z e : Z) :
  emin prec emax <= e -> z <> 0 ->
  signed (z <? 0) (binary_normalize prec emax z e false).
Proof.
  intros He Hz. destruct z as [| p | p]; [contradiction | |];
    now apply binary_round_signed.
Qed.

Lemma shl_align_value (m : positive) (e ez : Z) :
  ez <= e ->
  Z.pos (fst (shl_align m e ez)) = Z.pos m * 2 ^ (e - ez).
Proof.
  intros Hle. unfold shl_align.
  destruct (ez - e) as [| d | d] eqn:Hd; cbn [fst]; try lia.
  - replace (e - ez) with 0 by lia. lia.
  - replace (e - ez) with (Z.pos d) by lia.
    change (Pos.iter xO m d) with (Zpower.shift_pos d m).
    rewrite Zpower.shift_pos_correct. apply Z.mul_comm.
Qed.

(** The exact difference of two finite numbers, in units of the smaller
    exponent. *)
Definition exact_diff (sa : bool) (ma : positive) (ea : Z)
           (sb : bool) (mb : positive) (eb : Z) : Z :=
  let ez := Z.min ea eb in
  cond_Zopp sa (Z.pos (fst (shl_align ma ea ez)))
  - cond_Zopp sb (Z.pos (fst (shl_align mb eb ez))).

Lemma canonical_lt (ma : positive) (ea : Z) (mb : positive) (eb : Z) :
  canonical_mantissa prec emax ma ea = true ->
  canonical_mantissa prec emax mb eb = true ->
  ea < eb ->
  Z.pos ma < Z.pos mb * 2 ^ (eb - ea).
Proof.
  unfold canonical_mantissa, fexp, emin, prec, emax.
  rewrite !Z.eqb_eq. intros Ha Hb Hlt.
  pose proof (digits2_pos_bounds ma) as [_ Hhi].
  pose proof (digits2_pos_bounds mb) as [Hlo _].
  set (da := Z.pos (digits2_pos ma)) in *.
  set (db := Z.pos (digits2_pos mb)) in *.
  assert (Hdb : db = 53) by lia.
  assert (Hda : da <= 53) by lia.
  assert (H1 : 2 ^ da <= 2 ^ 53) by (apply Z.pow_le_mono_r; lia).
  assert (H2 : 2 ^ 1 <= 2 ^ (eb - ea)) by (apply Z.pow_le_mono_r; lia).
  rewrite Hdb in Hlo. change (2 ^ (53 - 1)) with 4503599627370496 in Hlo.
  change (2 ^ 53) with 9007199254740992 in H1.
  change (2 ^ 1) with 2 in H2. nia.
Qed.

Lemma SFcompare_exact_diff (sa : bool) (ma : positive) (ea : Z)
      (sb : bool) (mb : positive) (eb : Z) :
  canonical_mantissa prec emax ma ea = true ->
  canonical_mantissa prec emax mb eb = true ->
  SFcompare (S754_finite sa ma ea) (S754_finite sb mb eb)
  = Some (exact_diff sa ma ea sb mb eb ?= 0).
Proof.
  intros Ha Hb. unfold exact_diff. cbv zeta.
  rewrite !shl_align_value by lia.
  assert (HA : 0 < Z.pos ma * 2 ^ (ea - Z.min ea eb)).
  { apply Z.mul_pos_pos; [lia | apply Z.pow_pos_nonneg; lia]. }
  assert (HB : 0 < Z.pos mb * 2 ^ (eb - Z.min ea eb)).
  { apply Z.mul_pos_pos; [lia | apply Z.pow_pos_nonneg; lia]. }
  cbn [SFcompare]. f_equal.
  destruct sa, sb; cbn [cond_Zopp].
  - (* both negative *)
    destruct (Z.compare_spec ea eb) as [Heq | Hlt | Hgt].
    + subst eb. rewrite Z.min_id, Z.sub_diag in *. rewrite !Z.mul_1_r.
      change (Pos.compare_cont Eq ma mb) with (Pos.compare ma mb).
      rewrite Pos2Z.inj_compare.
      destruct (Z.compare_spec (Z.pos ma) (Z.pos mb));
        destruct (Z.compare_spec (- Z.pos ma - - Z.pos mb) 0);
        simpl; try reflexivity; lia.
    + pose proof (canonical_lt ma ea mb eb Ha Hb Hlt).
      rewrite Z.min_l in * by lia. rewrite Z.sub_diag, Z.mul_1_r in *.
      symmetry. apply Z.compare_gt_iff. lia.
    + pose proof (canonical_lt mb eb ma ea Hb Ha ltac:(lia)).
      rewrite Z.min_r in * by lia. rewrite Z.sub_diag, Z.mul_1_r in *.
      symmetry. apply Z.compare_lt_iff. lia.
  - symmetry. apply Z.compare_lt_iff. lia.
  - symmetry. apply Z.compare_gt_iff. lia.
  - destruct (Z.compare_spec ea eb) as [Heq | Hlt | Hgt].
    + subst eb. rewrite Z.min_id, Z.sub_diag in *. rewrite !Z.mul_1_r.
      change (Pos.compare_cont Eq ma mb) with (Pos.compare ma mb).
      rewrite Pos2Z.inj_compare.
      destruct (Z.compare_spec (Z.pos ma) (Z.pos mb));
        destruct (Z.compare_spec (Z.pos ma - Z.pos mb) 0);
        simpl; try reflexivity; lia.
    + pose proof (canonical_lt ma ea mb eb Ha Hb Hlt).
      rewrite Z.min_l in * by lia. rewrite Z.sub_diag, Z.mul_1_r in *.
      symmetry. apply Z.compare_lt_iff. lia.
    + pose proof (canonical_lt mb eb ma ea Hb Ha ltac:(lia)).
      rewrite Z.min_r in * by lia. rewrite Z.sub_diag, Z.mul_1_r in *.
      symmetry. apply Z.compare_gt_iff. lia.
Qed.

Lemma bounded_canonical (m : positive) (e : Z) :
  bounded prec emax m e = true ->
  canonical_mantissa prec emax m e = true /\ emin prec emax <= e.
Proof.
  unfold bounded. intros H. apply andb_true_iff in H. destruct H as [Hc _].
  split; [assumption |].
  unfold canonical_mantissa, fexp, emin, prec, emax in *.
  apply Z.eqb_eq in Hc. lia.
Qed.

Lemma exact_diff_opp (sa : bool) (ma : positive) (ea : Z)
      (sb : bool) (mb : positive) (eb : Z) :
  exact_diff sb mb eb sa ma ea = - exact_diff sa ma ea sb mb eb.
Proof.
  unfold exact_diff. cbv zeta. rewrite (Z.min_comm eb ea). lia.
Qed.

Lemma signed_gt_lt (sx : bool) (r : spec_float) :
  signed sx r ->
  gt r (num 0) = negb sx /\ lt r (num 0) = sx.
Proof.
  destruct r as [s | s | | s m e]; simpl; try contradiction;
    intros ->; destruct sx; split; reflexivity.
Qed.

(** The sign of a difference is the outcome of the comparison: binary64
    subtraction never rounds a non-zero difference of two numbers to zero,
    nor past zero. *)
Lemma sub_sign (a b : number) :
  valid_binary prec emax a = true ->
  valid_binary prec emax b = true ->
  gt (sub a b) (num 0) = gt a b /\ lt (sub a b) (num 0) = lt a b.
Proof.
  intros Ha Hb.
  destruct a as [sa | sa | | sa ma ea], b as [sb | sb | | sb mb eb];
    try (destruct sa; split; reflexivity);
    try (destruct sb; split; reflexivity);
    try (destruct sa, sb; split; reflexivity);
    try (split; reflexivity).
  cbn [valid_binary] in Ha, Hb.
  apply bounded_canonical in Ha, Hb.
  destruct Ha as [Hca Hea], Hb as [Hcb Heb].
  unfold gt, lt, SFltb.
  rewrite (SFcompare_exact_diff sa ma ea sb mb eb Hca Hcb).
  rewrite (SFcompare_exact_diff sb mb eb sa ma ea Hcb Hca).
  rewrite exact_diff_opp.
  unfold sub, SFsub. fold (exact_diff sa ma ea sb mb eb).
  set (z := exact_diff sa ma ea sb mb eb).
  destruct (Z.eq_dec z 0) as [Hz | Hz].
  - rewrite Hz. split; reflexivity.
  - assert (Hmin : emin prec emax <= Z.min ea eb) by lia.
    pose proof (binary_normalize_signed z (Z.min ea eb) Hmin Hz) as Hs.
    apply signed_gt_lt in Hs. unfold gt, lt, SFltb in Hs.
    destruct Hs as [-> ->].
    destruct (Z.compare_spec (- z) 0), (Z.compare_spec z 0),
      (Z.ltb_spec z 0); split; simpl; try reflexivity; lia.
Qed.

Local Close Scope Z_scope.

(** X10.  The glyph in the title tells how the reported EPS compares with the
    estimate, as binary64 numbers: green exactly when the actual is
    greater, red exactly when it is smaller, blue when they are equal or
    cannot be ordered; and blue whenever one of the two is [null] or
    absent.  The subtraction the script performs never blurs the
    comparison, however close the two numbers are. *)
Theorem glyph_follows_comparison (item : Item.t) :
  match Item.epsActual item, Item.epsEstimate item with
  | Val a, Val e =>
      valid_binary prec emax a = true ->
      valid_binary prec emax e = true ->
      statusEmoji item
      = (if gt a e then "🟢" else if lt a e then "🔴" else "🔵")%string
  | _, _ => statusEmoji item = "🔵"%string
  end.
Proof.
  unfold statusEmoji, surprise.
  destruct (Item.epsActual item) as [| | a];
    destruct (Item.epsEstimate item) as [| | e]; try reflexivity.
  intros Ha He. destruct (sub_sign a e Ha He) as [-> ->]. reflexivity.
Qed.

End Surprise.

(* ================================================================= *)
(** * Formatting amounts *)

(** The number a string of decimal digits denotes; [None] when a
    character is not a digit. *)
Fixpoint decimal_acc (s : string) (acc : Z) : option Z :=
  match s with
  | EmptyString => Some acc
  | String c s' =>
      match Builtins.digit c with
      | Some d => decimal_acc s' (10 * acc + d)
      | None => None
      end
  end.

Definition decimal (s : string) : option Z := decimal_acc s 0.

(** Evaluates the digit test on a literal character. *)
Ltac eval_digit :=
  match goal with
  | |- context [Builtins.digit ?c] =>
      let v := eval vm_compute in (Builtins.digit c) in
      change (Builtins.digit c) with v; cbv beta iota
  end.

Lemma decimal_acc_of_uint_acc (d : Decimal.uint) : forall acc : positive,
  decimal_acc (NilEmpty.string_of_uint d) (Z.pos acc)
  = Some (Z.pos (Pos.of_uint_acc d acc)).
Proof.
  induction d; intros acc;
    cbn [NilEmpty.string_of_uint decimal_acc Pos.of_uint_acc];
    try reflexivity;
    eval_digit; rewrite <- IHd; f_equal; lia.
Qed.

Lemma decimal_acc_of_uint (d : Decimal.uint) :
  decimal_acc (NilEmpty.string_of_uint d) 0 = Some (Z.of_N (Pos.of_uint d)).
Proof.
  induction d;
    cbn [NilEmpty.string_of_uint decimal_acc Pos.of_uint Z.of_N];
    try reflexivity;
    eval_digit; try exact IHd;
    rewrite <- decimal_acc_of_uint_acc; f_equal.
Qed.

(** The digits [toFixed] prints denote the number they were made from. *)
Lemma decimal_digits (n : Z) : (0 <= n)%Z -> decimal (digits n) = Some n.
Proof.
  intros Hn. unfold decimal, digits.
  assert (H : decimal_acc
                (NilZero.string_of_uint (N.to_uint (Z.to_N n))) 0
              = Some (Z.of_N (N.of_uint (N.to_uint (Z.to_N n))))).
  { unfold NilZero.string_of_uint, N.of_uint.
    destruct (N.to_uint (Z.to_N n)) eqn:Hd; try reflexivity;
      rewrite <- decimal_acc_of_uint; reflexivity. }
  rewrite H, DecimalN.Unsigned.of_to, Z2N.id by assumption. reflexivity.
Qed.

Lemma decimal_zeros (k : nat) (s : string) :
  decimal (zeros k ++ s) = decimal s.
Proof.
  unfold decimal. induction k as [| k IH]; simpl; [reflexivity | exact IH].
Qed.

Lemma length_append (s1 s2 : string) :
  String.length (s1 ++ s2) = String.length s1 + String.length s2.
Proof.
  induction s1 as [| c s1 IH]; simpl; [reflexivity | now rewrite IH].
Qed.

Lemma append_assoc (s1 s2 s3 : string) :
  ((s1 ++ s2) ++ s3)%string = (s1 ++ s2 ++ s3)%string.
Proof.
  induction s1 as [| c s1 IH]; simpl; [reflexivity | now rewrite IH].
Qed.

Lemma length_zeros (k : nat) : String.length (zeros k) = k.
Proof.
  induction k as [| k IH]; simpl; [reflexivity | now rewrite IH].
Qed.

Lemma length_substring (s : string) : forall n m,
  n + m <= String.length s -> String.length (substring n m s) = m.
Proof.
  induction s as [| c s IH]; intros n m Hlen; simpl in *.
  - destruct n, m; simpl; try reflexivity; lia.
  - destruct n as [| n].
    + destruct m as [| m]; simpl; [reflexivity |].
      rewrite IH by lia. reflexivity.
    + apply IH. lia.
Qed.

Lemma substring_split (s : string) : forall a,
  a <= String.length s ->
  (substring 0 a s ++ substring a (String.length s - a) s)%string = s.
Proof.
  induction s as [| c s IH]; intros a Ha; simpl in *.
  - destruct a; [reflexivity | lia].
  - destruct a as [| a]; simpl.
    + f_equal. specialize (IH 0 (Nat.le_0_l _)).
      rewrite Nat.sub_0_r in IH.
      destruct (String.length s) eqn:Hl; simpl in *.
      * destruct s; [reflexivity | discriminate].
      * destruct s as [| c' s']; [discriminate |]. simpl in IH. exact IH.
    + f_equal. apply IH. lia.
Qed.

(** The digits of [n], padded with zeros so that at least one stands in
    front of the decimal point. *)
Definition padded (n : Z) (f : nat) : string :=
  let m := digits n in
  let k := String.length m in
  if (k <=? f)%nat then (zeros (f + 1 - k) ++ m)%string else m.

(** [place_point] puts the point in front of the last [f] digits and
    changes nothing else. *)
Lemma place_point_shape (n : Z) (f : nat) :
  f <> 0 ->
  exists whole frac,
    place_point n f = (whole ++ "." ++ frac)%string
    /\ String.length frac = f
    /\ whole <> ""%string
    /\ (whole ++ frac)%string = padded n f.
Proof.
  intros Hf. unfold place_point. fold (padded n f).
  destruct f as [| f']; [contradiction |].
  set (f := S f') in *.
  assert (Hlen : f + 1 <= String.length (padded n f)).
  { unfold padded. cbv zeta.
    destruct (Nat.leb_spec (String.length (digits n)) f).
    - rewrite length_append, length_zeros. lia.
    - lia. }
  set (m' := padded n f) in *.
  exists (substring 0 (String.length m' - f) m'),
         (substring (String.length m' - f) f m').
  split; [reflexivity |].
  split; [apply length_substring; lia |].
  split.
  - intros Hempty.
    assert (Hl : String.length (substring 0 (String.length m' - f) m')
                 = String.length m' - f) by (apply length_substring; lia).
    rewrite Hempty in Hl. simpl in Hl. lia.
  - pose proof (substring_split m' (String.length m' - f)) as Hsplit.
    replace (String.length m' - (String.length m' - f)) with f in Hsplit
      by lia.
    apply Hsplit. lia.
Qed.

Lemma nearest_scaled_nonneg (m : positive) (e : Z) (f : nat) :
  (0 <= nearest_scaled m e f)%Z.
Proof.
  unfold nearest_scaled. cbv zeta.
  assert (0 <= Z.pos m * 10 ^ Z.of_nat f)%Z
    by (apply Z.mul_nonneg_nonneg; [lia | apply Z.pow_nonneg; lia]).
  destruct (Z.leb_spec 0 e).
  - apply Z.mul_nonneg_nonneg; [assumption | apply Z.pow_nonneg; lia].
  - apply Z.div_pos.
    + assert (0 <= 2 ^ (- e))%Z by (apply Z.pow_nonneg; lia). lia.
    + apply Z.pow_pos_nonneg; lia.
Qed.

(** X11.  Every amount below 10^21 billions is printed with exactly two
    decimals.  Let [q] be [x / 1e9] as a binary64, of magnitude
    [m * 2^e].  Then [toBillions x] is ["$"], a minus sign when [q] is
    negative, at least one digit, a point, exactly two digits, and ["B"];
    and the digits, read as one integer, are [n], the integer nearest to
    [100 * |q|] (the larger one on a tie). *)
Theorem toBillions_two_decimals
        (x : number) (s : bool) (m : positive) (e : Z) :
  div x (num 1000000000) = S754_finite s m e ->
  at_least_1e21 m e = false ->
  exists whole frac n,
    toBillions (Val x)
    = ("$" ++ (if s then "-" else "") ++ whole ++ "." ++ frac ++ "B")%string
    /\ String.length frac = 2
    /\ whole <> ""%string
    /\ decimal (whole ++ frac) = Some n
    /\ ((0 <= e)%Z -> n = (Z.pos m * 2 ^ e * 100)%Z)
    /\ ((e < 0)%Z ->
        (2 * n * 2 ^ (- e) - 2 ^ (- e)
         <= 2 * (Z.pos m * 100)
         < 2 * n * 2 ^ (- e) + 2 ^ (- e))%Z).
Proof.
  intros Hq Hbig.
  destruct (place_point_shape (nearest_scaled m e 2) 2 ltac:(discriminate))
    as (whole & frac & Hshape & Hlen & Hwhole & Hpad).
  exists whole, frac, (nearest_scaled m e 2).
  split.
  { unfold toBillions, toFixed. rewrite Hq, Hbig, Hshape.
    cbn [append]. f_equal. now rewrite !append_assoc. }
  split; [exact Hlen |]. split; [exact Hwhole |].
  split.
  { rewrite Hpad. unfold padded. cbv zeta.
    destruct (String.length (digits (nearest_scaled m e 2)) <=? 2)%nat;
      rewrite ?decimal_zeros; apply decimal_digits, nearest_scaled_nonneg. }
  split.
  - intros He. unfold nearest_scaled.
    destruct (Z.leb_spec 0 e); [| lia]. change (10 ^ Z.of_nat 2)%Z with 100%Z.
    lia.
  - intros He.
    pose proof (nearest_scaled_spec m (- e) 2 ltac:(lia)) as Hspec.
    cbv zeta in Hspec. rewrite Z.opp_involutive in Hspec.
    change (10 ^ Z.of_nat 2)%Z with 100%Z in Hspec. exact Hspec.
Qed.

(* ================================================================= *)
(** * Successive runs *)






(** ** Picking up after a run *)


(* ================================================================= *)
(** * The order in which the calendar lists its items *)

(** No two items of the batch carry the same report date. *)
Definition distinct_dates (b : list Item.t) : Prop :=
  ForallOrdPairs (fun a c => same_date a c = false) b.

Lemma same_date_trans (x a c : Item.t) :
  same_date x a = true -> same_date x c = true -> same_date a c = true.
Proof.
  unfold same_date.
  destruct (dateValue (Item.date x)), (dateValue (Item.date a)),
    (dateValue (Item.date c)); try discriminate; try reflexivity.
  rewrite !Z.eqb_eq. congruence.
Qed.

Lemma filter_same_date_short (x : Item.t) (b : list Item.t) :
  distinct_dates b -> List.length (filter (same_date x) b) <= 1.
Proof.
  induction 1 as [| a l Ha Hl IH]; simpl; [lia |].
  destruct (same_date x a) eqn:Hxa; [| exact IH].
  assert (Hnone : filter (same_date x) l = []).
  { destruct (filter (same_date x) l) as [| c r] eqn:Hf; [reflexivity |].
    assert (Hc : In c (filter (same_date x) l)) by (rewrite Hf; now left).
    apply filter_In in Hc. destruct Hc as [Hin Hxc].
    rewrite Forall_forall in Ha. specialize (Ha c Hin).
    rewrite (same_date_trans x a c Hxa Hxc) in Ha. discriminate. }
  rewrite Hnone. simpl. lia.
Qed.

Lemma filter_Permutation {A : Type} (p : A -> bool) (l1 l2 : list A) :
  Permutation l1 l2 -> Permutation (filter p l1) (filter p l2).
Proof.
  induction 1 as [| x l1 l2 H IH | x y l | l1 l2 l3 H12 IH12 H23 IH23];
    simpl.
  - constructor.
  - destruct (p x); [now constructor | assumption].
  - destruct (p x), (p y); try reflexivity. apply perm_swap.
  - etransitivity; eassumption.
Qed.

Lemma short_Permutation_eq {A : Type} (l1 l2 : list A) :
  List.length l1 <= 1 -> Permutation l1 l2 -> l1 = l2.
Proof.
  intros Hlen Hperm. destruct l1 as [| a [| a' l1]]; simpl in Hlen.
  - apply Permutation_nil in Hperm. now subst.
  - apply Permutation_length_1_inv in Hperm. now subst.
  - lia.
Qed.

(** With distinct report dates, the order of the loop does not depend
    on the order in which the calendar lists the items. *)
Lemma Array_sort_Permutation_eq (b1 b2 : list Item.t) :
  Permutation b1 b2 -> Forall valid_date b1 -> distinct_dates b1 ->
  Array_sort compareDates b1 = Array_sort compareDates b2.
Proof.
  intros Hperm Hvalid Hdist.
  apply Array_sort_unique.
  - rewrite Forall_forall in *. intros z Hz. apply Hvalid.
    eapply Permutation_in; [symmetry |]; eassumption.
  - etransitivity; [apply Array_sort_Permutation | assumption].
  - now apply Array_sort_sorted.
  - intros x. rewrite Array_sort_filter
      by (intros a c; apply same_date_SortCompare).
    apply short_Permutation_eq; [now apply filter_same_date_short |].
    now apply filter_Permutation.
Qed.

Lemma deliver_ext (w1 w2 : World) (q : list Item.t) : forall n,
  (forall k p, webhook_send w1 k p = webhook_send w2 k p) ->
  deliver w1 n q = deliver w2 n q /\ stopped w1 n q = stopped w2 n q.
Proof.
  induction q as [| x q IH]; intros n Hext; simpl; [auto |].
  destruct (accepted x); [| auto].
  rewrite Hext. destruct (webhook_send w2 n (buildPayload x)); [| auto].
  destruct (IH (S n) Hext) as [-> ->]. auto.
Qed.

(** X9.  A run is the same whichever way the calendar orders its answer:
    when the dates of the batch are valid and pairwise distinct, two
    worlds that differ only in the order of the batch lead to the same
    result, the same trace -- the same sends in the same order -- and the
    same state file. *)
Theorem upstream_order_is_irrelevant
        (w1 w2 : World) (f : file) (b1 b2 : list Item.t) :
  batch w1 = Some b1 -> batch w2 = Some b2 ->
  Permutation b1 b2 ->
  Forall valid_date b1 -> distinct_dates b1 ->
  (forall n p, webhook_send w1 n p = webhook_send w2 n p) ->
  fs_writeFile w1 = fs_writeFile w2 ->
  run w1 f = run w2 f.
Proof.
  intros Hb1 Hb2 Hperm Hvalid Hdist Hsend Hwrite.
  pose proof (Array_sort_Permutation_eq b1 b2 Hperm Hvalid Hdist) as Hsort.
  assert (Hatt : run_attempts w1 f = run_attempts w2 f).
  { unfold run_attempts, run_queue. rewrite Hb1, Hb2, Hsort.
    now apply deliver_ext. }
  assert (Hthrown : thrown w1 f = thrown w2 f).
  { rewrite (thrown_batch w1 f b1 Hb1), (thrown_batch w2 f b2 Hb2), Hsort.
    unfold loop_outcome.
    now destruct (deliver_ext w1 w2 (queue (loaded f)
                                           (Array_sort compareDates b2))
                              0 Hsend) as [_ ->]. }
  rewrite !run_eq.
  unfold main_result, final_state, caught, closing.
  now rewrite Hatt, Hthrown, Hwrite.
Qed.

(** ** A run in which the second gate never closes *)

(** X15.  An ordinary run, spelled out.  When the dates of the batch are
    valid, none of its reported items is recorded yet, no two of them
    share a (symbol, date), the builder accepts their embeds and every
    send succeeds, the run sends exactly the reported items of the batch,
    each once, in ascending order of date and in upstream order within a
    date, appends their records to the state in that order, and logs no
    error. *)
Theorem fresh_items_are_all_sent (w : World) (f : file) (b : list Item.t) :
  batch w = Some b ->
  Forall valid_date b ->
  (forall item, In item b -> isReported item = true ->
                accepted item = true) ->
  (forall n p, webhook_send w n p = true) ->
  NoDup (map entryOf (filter isReported b)) ->
  (forall item, In item b -> isReported item = true ->
                recorded (loaded f) item = Ok false) ->
  let m' := snd (run w f) in
  let due := filter isReported (Array_sort compareDates b) in
  attempts (trace m') = map succeeded due
  /\ state m' = push_all (loaded f) (map entryOf due)
  /\ Permutation due (filter isReported b)
  /\ StronglySorted date_le due
  /\ (forall x, filter (same_date x) due
                = filter (same_date x) (filter isReported b))
  /\ errors (trace m') = [].
Proof.
  intros Hb Hvalid Hacc Hok Hnd Hnew. cbv zeta.
  assert (Hperm : Permutation (filter isReported (Array_sort compareDates b))
                              (filter isReported b)).
  { apply filter_Permutation, Array_sort_Permutation. }
  assert (Hq : run_queue f b
               = filter isReported (Array_sort compareDates b)).
  { unfold run_queue. apply queue_filter.
    - eapply Permutation_NoDup; [| exact Hnd].
      symmetry. now apply Permutation_map.
    - intros item Hin. apply Hnew. now apply In_Array_sort. }
  assert (Hatt : run_attempts w f = map succeeded (run_queue f b)).
  { unfold run_attempts. rewrite Hb.
    apply deliver_all_ok; [| intros k item _; apply Hok].
    intros item Hin. rewrite Hq in Hin. apply filter_In in Hin.
    destruct Hin as [Hin Hr]. apply Hacc; [| exact Hr].
    now apply In_Array_sort. }
  assert (Hfilter : forall (p q : Item.t -> bool) (l : list Item.t),
             filter p (filter q l) = filter q (filter p l)).
  { intros p q l. induction l as [| a l IH]; simpl; [reflexivity |].
    destruct (p a) eqn:Hp, (q a) eqn:Hq'; simpl;
      rewrite ?Hp, ?Hq', IH; reflexivity. }
  rewrite run_attempts_eq, run_state, run_errors_eq. unfold final_state.
  rewrite Hatt, delivered_succeeded, Hq.
  split; [reflexivity |]. split; [reflexivity |]. split; [exact Hperm |].
  split; [| split].
  - eapply subseq_StronglySorted; [| apply Array_sort_sorted, Hvalid].
    clear. induction (Array_sort compareDates b) as [| a l IH]; simpl;
      [constructor |].
    destruct (isReported a); [now apply subseq_keep | now apply subseq_skip].
  - intros x. rewrite Hfilter, Array_sort_filter, Hfilter; [reflexivity |].
    intros a c. apply same_date_SortCompare.
  - assert (Hth : thrown w f = None); [| now rewrite Hth].
    apply thrown_None. exists b. split; [assumption |].
    split; [now apply stopped_None; rewrite <- Hatt; unfold run_attempts;
            rewrite Hb |].
    destruct (faulty (loaded f) (Array_sort compareDates b)) eqn:Hf;
      [| reflexivity].
    destruct (faulty_throws _ _ Hf) as (x & Hx & Hrx & Htx).
    apply (proj1 (In_Array_sort b x)) in Hx.
    rewrite (Hnew x Hx Hrx) in Htx. discriminate.
Qed.

(* ================================================================= *)
(** * The process *)

Section Process.

(** Whether [new WebhookClient({ url })] accepts the URL; it throws
    otherwise. *)
Variable WebhookClient_accepts : string -> bool.

(** The two environment variables the script reads. *)
Record Env : Type := {
  DISCORD_EARNINGS_WEBHOOK : option string;
  FINNHUB_TOKEN : option string
}.

(** [!v] for an environment variable: not set, or set to the empty
    string. *)
Definition unset (v : option string) : bool :=
  match v with
  | None => true
  | Some s => String.eqb s ""
  end.

(** How the process ends. *)
Inductive Outcome : Type :=
| Refused (message : string)
    (** [console.error(message); process.exit(1)] before anything ran *)
| Uncaught
    (** the module threw while loading *)
| Completed (m : Machine)
    (** [main()] resolved *)
| Crashed (e : exn) (m : Machine).
    (** [main()] rejected; the [catch] callback logged [e], destroyed the
        webhook client and called [process.exit(1)] *)


(** The effects the process had on the outside world. *)
Definition effects (o : Outcome) : list Effect :=
  match o with
  | Completed m | Crashed _ m => trace m
  | _ => []
  end.

(** The module, top to bottom. *)
Definition script (env : Env) (w : World) (f : file) : Outcome :=
  if unset (DISCORD_EARNINGS_WEBHOOK env)
  then Refused "❌ Missing DISCORD_EARNINGS_WEBHOOK"
  else if unset (FINNHUB_TOKEN env)
  then Refused "❌ Missing FINNHUB_TOKEN"
  else
    match DISCORD_EARNINGS_WEBHOOK env with
    | Some url =>
        if WebhookClient_accepts url then
          match main w (boot f) with
          | (Ok _, m) => Completed m
          | (Throw e, m) =>
              Crashed e {| disk := disk m; state := state m; sent := sent m;
                           trace := trace m
                                    ++ [Console (Fatal e); WebhookDestroy] |}
          end
        else Uncaught
    | None => Uncaught  (* not reached: the variable is set here *)
    end.

Lemma not_in_loop_trace (att : list (Item.t * bool)) :
  ~ In WebhookDestroy (flat_map attempt_trace att).
Proof.
  intros Hin. apply in_flat_map in Hin.
  destruct Hin as ([item ok] & _ & Hin).
  destruct ok; simpl in Hin; intuition discriminate.
Qed.

Lemma not_in_caught (w : World) (f : file) :
  ~ In WebhookDestroy (caught w f).
Proof.
  unfold caught. destruct (thrown w f); simpl; intuition discriminate.
Qed.


(** X8.  Whenever [main] ran -- the configuration was complete and the
    client was built -- [webhook.destroy?.()] is reached exactly once, as
    the very last effect of the process, after the one call of
    [saveState], whether [main] resolves or rejects. *)
Theorem webhook_destroyed_last (env : Env) (w : World) (f : file) :
  (exists m, script env w f = Completed m)
  \/ (exists e m, script env w f = Crashed e m) ->
  exists tr,
    effects (script env w f) = tr ++ [WebhookDestroy]
    /\ ~ In WebhookDestroy tr
    /\ saveState_calls tr = 1.
Proof.
  intros Hran.
  assert (Hmain : script env w f
                  = match main w (boot f) with
                    | (Ok _, m) => Completed m
                    | (Throw e, m) =>
                        Crashed e {| disk := disk m; state := state m;
                                     sent := sent m;
                                     trace := trace m
                                              ++ [Console (Fatal e);
                                                  WebhookDestroy] |}
                    end).
  { unfold script in *.
    destruct (unset (DISCORD_EARNINGS_WEBHOOK env));
      [destruct Hran as [[m H] | (e & m & H)]; discriminate |].
    destruct (unset (FINNHUB_TOKEN env));
      [destruct Hran as [[m H] | (e & m & H)]; discriminate |].
    destruct (DISCORD_EARNINGS_WEBHOOK env) as [url |];
      [| destruct Hran as [[m H] | (e & m & H)]; discriminate].
    destruct (WebhookClient_accepts url);
      [reflexivity | destruct Hran as [[m H] | (e & m & H)]; discriminate]. }
  rewrite Hmain. clear Hran Hmain.
  fold (run w f). rewrite run_eq.
  set (att := run_attempts w f). set (s' := final_state w f).
  set (pre := FsReadFile :: HttpGet
              :: flat_map attempt_trace att
                 ++ caught w f ++ [Console SavingState]).
  assert (Hcalls : saveState_calls pre = 1).
  { unfold pre. simpl. rewrite !saveState_calls_app.
    destruct (loop_trace att) as (_ & _ & _ & ->).
    destruct (caught_silent w f) as (_ & _ & _ & ->). reflexivity. }
  assert (Hpre : ~ In WebhookDestroy pre).
  { unfold pre. simpl. intros [H | [H | H]]; try discriminate.
    apply in_app_or in H. destruct H as [H | H];
      [now apply (not_in_loop_trace att) |].
    apply in_app_or in H. destruct H as [H | H];
      [now apply (not_in_caught w f) |].
    simpl in H. intuition discriminate. }
  assert (Htrace : forall rest,
             FsReadFile :: HttpGet
             :: flat_map attempt_trace att
                ++ caught w f ++ Console SavingState :: rest
             = pre ++ rest).
  { intros rest. unfold pre. simpl. now rewrite <- !app_assoc. }
  unfold main_result, closing. fold s'. rewrite Htrace.
  destruct (fs_writeFile w) as [f' |]; cbn [effects trace].
  - exists (pre ++ [FsWriteFile (StateJson s') false;
                    Console (Fatal WriteError)]).
    split; [now rewrite <- !app_assoc |]. split.
    + intros H. apply in_app_or in H. destruct H as [H | H];
        [now apply Hpre | simpl in H; intuition discriminate].
    + rewrite saveState_calls_app, Hcalls. reflexivity.
  - destruct (get "length" s') as [n | e]; cbn [effects trace].
    + exists (pre ++ [FsWriteFile (StateJson s') true; Console StateSaved;
                      Console (TotalRecords n)]).
      split; [now rewrite <- !app_assoc |]. split.
      * intros H. apply in_app_or in H. destruct H as [H | H];
          [now apply Hpre | simpl in H; intuition discriminate].
      * rewrite saveState_calls_app, Hcalls. reflexivity.
    + exists (pre ++ [FsWriteFile (StateJson s') true; Console StateSaved;
                      Console (Fatal e)]).
      split; [now rewrite <- !app_assoc |]. split.
      * intros H. apply in_app_or in H. destruct H as [H | H];
          [now apply Hpre | simpl in H; intuition discriminate].
      * rewrite saveState_calls_app, Hcalls. reflexivity.
Qed.

End Process.

End Earnings.

(* ================================================================= *)
(** * The properties on sample runs *)

Module Runs.

Import Sample Builtins.

Definition NT := Number_toString_integral.
Definition DP := Date_parse_iso.
Definition EB := EmbedBuilder_limits.



(** An entry with estimates only is never sent; its neighbour is. *)
Lemma reportable_iff_actual_not_null_witness :
  let m' := snd (run NT DP EB (calm [EEE; AAA]) Missing) in
  isReported EEE = false
  /\ ~ In (EEE, true) (attempts (trace m'))
  /\ ~ In (EEE, false) (attempts (trace m'))
  /\ isReported AAA = true
  /\ In (AAA, true) (attempts (trace m')).
Proof.
  intros m'.
  pose proof (reportable_iff_actual_not_null NT DP EB (calm [EEE; AAA]) EEE)
    as (_ & _ & _ & Hnever & _).
  pose proof (reportable_iff_actual_not_null NT DP EB (calm [EEE; AAA]) AAA)
    as (Hiff & _ & _ & _ & Hsent & _).
  split; [reflexivity |].
  split; [exact (Hnever eq_refl eq_refl Missing true) |].
  split; [exact (Hnever eq_refl eq_refl Missing false) |].
  assert (Hr : isReported AAA = true) by (apply Hiff; right; discriminate).
  split; [exact Hr |].
  apply (Hsent Missing [EEE; AAA] eq_refl (or_intror (or_introl eq_refl)) Hr
           eq_refl).
  - intros j [<- | [<- | []]] Hj; [discriminate Hj | vm_compute; reflexivity].
  - reflexivity.
  - intros j [<- | [<- | []]] Hkey; [discriminate Hkey | reflexivity].
Defined.



(** An entry without a symbol is sent, and so is the one behind it; an
    entry whose embed is refused stops the loop. *)
Lemma no_item_level_validation_witness :
  let m1 := snd (run NT DP EB (calm [anonymous; AAA]) Missing) in
  let m2 := snd (run NT DP EB (calm [AAA; LONG; BBB]) Missing) in
  title (buildEmbed NT anonymous) = "🔵 undefined"%string
  /\ errors (trace m1) = []
  /\ recorded (state m1) anonymous = Ok true
  /\ (exists j, In (j, true) (attempts (trace m1))
                /\ entryOf j = entryOf anonymous)
  /\ attempts (trace m2) = [(AAA, true)]
  /\ errors (trace m2) = [ValidationError]
  /\ forall ok, ~ In (BBB, ok) (attempts (trace m2)).
Proof.
  intros m1 m2.
  pose proof (no_item_level_validation NT DP EB (calm [anonymous; AAA])
                Missing) as H1.
  cbv zeta in H1. fold m1 in H1. destruct H1 as (Hsym & _ & Hfine & _).
  destruct (Hsym anonymous eq_refl) as (Htitle & _).
  destruct (Hfine [anonymous; AAA] eq_refl eq_refl) as (Herr & Hall).
  { intros j [<- | [<- | []]] _; vm_compute; reflexivity. }
  { reflexivity. }
  destruct (Hall anonymous (or_introl eq_refl) eq_refl) as (Hrec & Hsent).
  pose proof (no_item_level_validation NT DP EB (calm [AAA; LONG; BBB])
                Missing) as H2.
  cbv zeta in H2. fold m2 in H2. destruct H2 as (_ & _ & _ & Hrefused).
  assert (Hq : run_queue DP Missing [AAA; LONG; BBB] = [AAA; LONG; BBB])
    by (vm_compute; reflexivity).
  destruct (Hrefused [AAA; LONG; BBB] 1 LONG eq_refl)
    as (Hatt & Herr2 & _ & Hnever).
  { repeat constructor; unfold valid_date; vm_compute; discriminate. }
  { rewrite Hq. reflexivity. }
  { rewrite Hq. intros [| j] item Hj; simpl; [| lia].
    intros [= <-]. split; [vm_compute; reflexivity | reflexivity]. }
  { vm_compute. reflexivity. }
  split; [rewrite Htitle; reflexivity |]. split; [exact Herr |].
  split; [exact Hrec |]. split; [apply Hsent; reflexivity |].
  split; [rewrite Hatt, Hq; reflexivity |]. split; [exact Herr2 |].
  intros ok. apply Hnever. rewrite Hq. simpl. auto.
Defined.

(** C6, as stated, fails twice over.  The script does send a notification
    for the entry that lacks its symbol; and an entry whose embed the
    builder refuses is not skipped but ends the loop, so that the valid
    entry behind it is not delivered. *)
Lemma malformed_event_is_notified :
  let m1 := snd (run NT DP EB (calm [anonymous; AAA]) Missing) in
  let m2 := snd (run NT DP EB (calm [AAA; LONG; BBB]) Missing) in
  Item.symbol anonymous = Undefined
  /\ In (anonymous, true) (attempts (trace m1))
  /\ map title (flat_map embeds (payloads (trace m1)))
     = ["🔵 undefined"%string; "🔵 AAA"%string]
  /\ state m1
     = JArray [ record Undefined (Val "2024-05-01"%string);
                entry "AAA" "2024-05-01" ]
  /\ accepted NT EB LONG = false
  /\ isReported BBB = true /\ accepted NT EB BBB = true
  /\ attempts (trace m2) = [(AAA, true)]
  /\ state m2 = JArray [entry "AAA" "2024-05-01"].
Proof.
  vm_compute. repeat split. left. reflexivity.
Qed.





End Runs.

(* ================================================================= *)
(** * Further sample runs *)

Module Checks.

Import Sample Builtins Runs.

(** A world whose disk cannot be written: the write throws and leaves no
    file. *)
Definition read_only (items : list Item.t) : World :=
  {| axios_get := responds items;
     webhook_send := fun _ _ => true;
     fs_writeFile := Some Missing |}.

Definition accepts : string -> bool := WebhookClient_url.

Definition webhook_url : string :=
  ("https://discord.com/api/webhooks/123456789012345678/"
   ++ "abcdefghijklmnopqrstuvwxyzABCDEFGHIJKLMNOPQRSTUVWXYZ0123456789_-abcdef")%string.

Definition configured : Env :=
  {| DISCORD_EARNINGS_WEBHOOK := Some webhook_url;
     FINNHUB_TOKEN := Some "secret"%string |}.


(** EPS 1.1 against an estimate of 1. *)
Definition beat : Item.t :=
  {| Item.symbol := Val "AAA"%string; Item.date := Val "2024-05-01"%string;
     Item.hour := Val "bmo"%string; Item.quarter := Val (num 2);
     Item.epsActual := Val (div (num 11) (num 10));
     Item.epsEstimate := Val (num 1);
     Item.revenueActual := Null; Item.revenueEstimate := Null |}.

(** Two sends, and the pause between them. *)
Lemma sends_are_paced_witness :
  In (Sleep SLEEP_BETWEEN_SENDS)
     [Console (Sent (Val "AAA"%string) (Val "2024-05-01"%string));
      Sleep 3000].
Proof.
  apply (proj1 (sends_are_paced NT DP EB (calm [AAA; BBB]) Missing)
           [FsReadFile; HttpGet]
           (WebhookSend AAA (buildPayload NT AAA) true)
           _
           (WebhookSend BBB (buildPayload NT BBB) true)
           (skipn 6 (trace (snd (run NT DP EB (calm [AAA; BBB]) Missing))))
           I I).
  vm_compute. reflexivity.
Defined.

(** The write comes after the only send. *)
Lemma effects_in_order_witness :
  let m' := snd (run NT DP EB (calm [AAA]) Missing) in
  attempts (firstn 6 (trace m')) = [(AAA, true)]
  /\ attempts (skipn 7 (trace m')) = [].
Proof.
  intros m'.
  pose proof (effects_in_order NT DP EB (calm [AAA]) Missing) as H.
  cbv zeta in H. fold m' in H. destruct H as (_ & _ & _ & Hsplit).
  destruct (Hsplit (firstn 6 (trace m'))
                   (StateJson (JArray [entry "AAA" "2024-05-01"])) true
                   (skipn 7 (trace m')))
    as (Hbefore & Hafter & _).
  { vm_compute. reflexivity. }
  split; [rewrite Hbefore; vm_compute; reflexivity | exact Hafter].
Defined.

(** A fetch that times out: one error line, no send.  A refused embed:
    the error of the builder, and the item is not on record. *)
Lemma errors_are_logged_once_witness :
  let tr := trace (snd (run NT DP EB offline earlier)) in
  let m2 := snd (run NT DP EB (calm [LONG]) Missing) in
  errors tr = [NetworkError] /\ attempts tr = []
  /\ errors (trace m2) <> []
  /\ ~ (forall item, In item [LONG] -> isReported item = true ->
                     recorded (state m2) item = Ok true).
Proof.
  intros tr m2.
  pose proof (errors_are_logged_once NT DP EB offline earlier) as H.
  cbv zeta in H. fold tr in H. destruct H as (_ & Hthrow & _).
  destruct (Hthrow NetworkError eq_refl) as [He Ha].
  pose proof (errors_are_logged_once NT DP EB (calm [LONG]) Missing) as H2.
  cbv zeta in H2. fold m2 in H2. destruct H2 as (_ & _ & _ & _ & _ & Hiff).
  split; [exact He |]. split; [exact Ha |].
  assert (Herr : errors (trace m2) <> []) by (vm_compute; discriminate).
  split; [exact Herr |].
  intros Hall. apply Herr, Hiff. exists [LONG]. now split.
Defined.

(** What was sent had been fetched. *)
Lemma sends_come_from_the_batch_witness :
  exists b, batch (calm [EEE; AAA]) = Some b /\ In AAA b
            /\ isReported AAA = true
            /\ recorded (loaded Missing) AAA = Ok false
            /\ ~ In (entryOf AAA) (elements (loaded Missing)).
Proof.
  pose proof (sends_come_from_the_batch NT DP EB (calm [EEE; AAA]) Missing)
    as H.
  cbv zeta in H. destruct H as (Hfrom & _).
  apply (Hfrom AAA true). vm_compute. left. reflexivity.
Defined.




(** The write fails: the [catch] callback destroys the client. *)
Lemma webhook_destroyed_last_witness :
  exists tr,
    effects (script NT DP EB accepts configured (read_only [AAA]) Missing)
    = tr ++ [WebhookDestroy]
    /\ ~ In WebhookDestroy tr /\ saveState_calls tr = 1.
Proof.
  apply webhook_destroyed_last.
  right. eexists. eexists. vm_compute. reflexivity.
Defined.

(** The same three items, listed in two orders. *)
Lemma upstream_order_is_irrelevant_witness :
  run NT DP EB (calm [CCC; AAA; BBB]) earlier
  = run NT DP EB (calm [AAA; BBB; CCC]) earlier.
Proof.
  apply (upstream_order_is_irrelevant NT DP EB
           (calm [CCC; AAA; BBB]) (calm [AAA; BBB; CCC]) earlier
           [CCC; AAA; BBB] [AAA; BBB; CCC] eq_refl eq_refl).
  - apply (Permutation_cons_append [AAA; BBB] CCC).
  - repeat constructor; unfold valid_date; vm_compute; discriminate.
  - repeat constructor; vm_compute; reflexivity.
  - reflexivity.
  - reflexivity.
Defined.

(** 1.1 beats 1. *)
Lemma glyph_follows_comparison_witness :
  valid_binary prec emax (div (num 11) (num 10)) = true
  /\ valid_binary prec emax (num 1) = true
  /\ statusEmoji beat = "🟢"%string.
Proof.
  split; [vm_compute; reflexivity |]. split; [vm_compute; reflexivity |].
  pose proof (glyph_follows_comparison beat) as H.
  cbn [beat Item.epsActual Item.epsEstimate] in H.
  rewrite H by (vm_compute; reflexivity).
  vm_compute. reflexivity.
Defined.

(** 2 345 000 000 is printed as 2.35 billions. *)
Lemma toBillions_two_decimals_witness :
  exists whole frac n,
    toBillions NT (Val (num 2345000000))
    = ("$" ++ "" ++ whole ++ "." ++ frac ++ "B")%string
    /\ String.length frac = 2
    /\ whole <> ""%string
    /\ decimal (whole ++ frac) = Some n
    /\ (1 <= 2 * n * 2 ^ 51 - 2 * (5280470563091907 * 100) + 2 ^ 51
        <= 2 ^ 52)%Z.
Proof.
  destruct (toBillions_two_decimals NT (num 2345000000) false
              5280470563091907 (-51) ltac:(vm_compute; reflexivity)
              ltac:(vm_compute; reflexivity))
    as (whole & frac & n & Heq & Hlen & Hwhole & Hdec & _ & Hnear).
  exists whole, frac, n.
  split; [exact Heq |]. split; [exact Hlen |]. split; [exact Hwhole |].
  split; [exact Hdec |].
  specialize (Hnear ltac:(lia)).
  change (- -51)%Z with 51%Z in Hnear.
  change (2 ^ 52)%Z with (2 * 2 ^ 51)%Z. lia.
Defined.

(** The message sent for AAA. *)
Lemma every_message_is_one_quiet_embed_witness :
  exists item e,
    (exists ok, In (item, ok)
                   (attempts (trace (snd (run NT DP EB (calm [AAA]) Missing)))))
    /\ buildPayload NT AAA = buildPayload NT item
    /\ allowed_mentions_parse (buildPayload NT AAA) = []
    /\ embeds (buildPayload NT AAA) = [e].
Proof.
  destruct (every_message_is_one_quiet_embed NT DP EB (calm [AAA]) Missing
              (buildPayload NT AAA))
    as (item & e & Hatt & Hp & Hquiet & Hone & _).
  { vm_compute. left. reflexivity. }
  exists item, e. auto.
Defined.


(** A first run: the estimate is left out, the two reports go out in date
    order. *)
Lemma fresh_items_are_all_sent_witness :
  let m' := snd (run NT DP EB (calm [CCC; EEE; AAA]) Missing) in
  attempts (trace m') = [(AAA, true); (CCC, true)]
  /\ state m'
     = JArray [entry "AAA" "2024-05-01"; entry "CCC" "2024-05-03"]
  /\ errors (trace m') = [].
Proof.
  intros m'.
  assert (Hnd : NoDup (map entryOf (filter isReported [CCC; EEE; AAA]))).
  { simpl. constructor; [intros [H | []]; discriminate H |].
    constructor; [intros [] | constructor]. }
  pose proof (fresh_items_are_all_sent NT DP EB (calm [CCC; EEE; AAA])
                Missing [CCC; EEE; AAA] eq_refl) as H.
  cbv zeta in H. fold m' in H.
  destruct H as (Ha & Hs & _ & _ & _ & He).
  { repeat constructor; unfold valid_date; vm_compute; discriminate. }
  { intros item [<- | [<- | [<- | []]]] Hr; try discriminate Hr;
      vm_compute; reflexivity. }
  { reflexivity. }
  { exact Hnd. }
  { intros item [<- | [<- | [<- | []]]] Hr; try discriminate Hr;
      reflexivity. }
  split; [rewrite Ha; vm_compute; reflexivity |].
  split; [rewrite Hs; vm_compute; reflexivity | exact He].
Defined.


End Checks.
